(** * Kinship matching of genetic profiles: [match_single] and [find_matches]

    A shallow embedding of [src/codechallenge2025/participant_solution.py].

    - Python [float] is IEEE binary64 with round-to-nearest-even: it is
      modelled by the kernel's primitive floats ([PrimFloat.float]), whose
      operations are the same binary64 operations.
    - A [dict] (the query profile) and a pandas row (a [Series]) are modelled
      as association lists from column name to the [str()] image of the
      value, in column order: the order of the query's keys is the order
      in which the per-locus multipliers are multiplied into [clr].
    - An exception is an explicit result: [Raise (ValueError s)] for a failed
      [float(s)], [Raise (KeyError k)] for a failed [d[k]].
    - The builtin [float(s)] on a string is a parameter [py_float] of the
      model: every theorem holds for every parser.  [plain_float] is one
      parser, used to run the model on concrete profiles.
    - Strings are sequences of ASCII characters: [strip] removes the ASCII
      white space only.
    - Reading the two CSV files and printing progress are left out:
      [find_matches] starts from the two loaded frames. *)

From Stdlib Require Import List String Ascii Bool Arith ZArith Lia.
From Stdlib Require Import Sorted Permutation.
From Stdlib Require Import Floats Uint63 DecimalString.
Import ListNotations.

(* Decimal literals denote the nearest binary64 value, as in Python. *)
Set Warnings "-inexact-float".

Local Open Scope string_scope.
Local Open Scope list_scope.
Local Open Scope nat_scope.

(** ** Exceptions *)

Inductive exn : Type :=
| KeyError (key : string)
| ValueError (text : string).

Inductive result (A : Type) : Type :=
| Ok (a : A)
| Raise (e : exn).

Arguments Ok {A} a.
Arguments Raise {A} e.

Definition bind {A B : Type} (r : result A) (k : A -> result B) : result B :=
  match r with
  | Ok a => k a
  | Raise e => Raise e
  end.

Notation "x <- r ;; k" := (bind r (fun x => k))
  (at level 61, r at next level, right associativity).

(** [map(f, xs)] consumed eagerly, the first exception wins. *)
Fixpoint map_result {A B : Type} (f : A -> result B) (xs : list A) : result (list B) :=
  match xs with
  | [] => Ok []
  | x :: rest =>
      y <- f x ;;
      ys <- map_result f rest ;;
      Ok (y :: ys)
  end.

(** ** Strings *)

(** The ASCII characters [str.strip()] removes: tab, line feed, vertical tab,
    form feed, carriage return, the separators 0x1c..0x1f and the space. *)
Definition is_space (c : ascii) : bool :=
  let n := nat_of_ascii c in
  ((9 <=? n) && (n <=? 13)) || ((28 <=? n) && (n <=? 31)) || (n =? 32).

Fixpoint lstrip (s : string) : string :=
  match s with
  | String c rest => if is_space c then lstrip rest else s
  | EmptyString => EmptyString
  end.

Fixpoint rstrip (s : string) : string :=
  match s with
  | String c rest =>
      match rstrip rest with
      | EmptyString => if is_space c then EmptyString else String c EmptyString
      | kept => String c kept
      end
  | EmptyString => EmptyString
  end.

Definition strip (s : string) : string := rstrip (lstrip s).

(** [sep in s] for a one-character [sep]. *)
Fixpoint contains (sep : ascii) (s : string) : bool :=
  match s with
  | String c rest => Ascii.eqb c sep || contains sep rest
  | EmptyString => false
  end.

(** [s.split(sep)] for a one-character [sep]: never empty. *)
Fixpoint split (sep : ascii) (s : string) : list string :=
  match s with
  | EmptyString => [EmptyString]
  | String c rest =>
      if Ascii.eqb c sep then EmptyString :: split sep rest
      else match split sep rest with
           | part :: parts => String c part :: parts
           | [] => [String c EmptyString]
           end
  end.

Definition comma : ascii := ","%char.

(** ** Dictionaries and rows *)

Definition dict : Type := list (string * string).

Definition keys (d : dict) : list string := map fst d.

Fixpoint lookup (d : dict) (k : string) : option string :=
  match d with
  | [] => None
  | (k', v) :: rest => if String.eqb k' k then Some v else lookup rest k
  end.

(** [d.get(k, default)] *)
Definition get (d : dict) (k default : string) : string :=
  match lookup d k with
  | Some v => v
  | None => default
  end.

(** [d[k]] *)
Definition index (d : dict) (k : string) : result string :=
  match lookup d k with
  | Some v => Ok v
  | None => Raise (KeyError k)
  end.

(** A [DataFrame] as the sequence of its rows, in [iterrows()] order. *)
Definition DataFrame : Type := list dict.

(** ** Sets of floats

    A Python set of floats, kept as a list without repetition.  Membership is
    Python's: [x == y] on floats, so [0.0] and [-0.0] are one member and a
    NaN is never found (each [float()] call returns a fresh object). *)

Definition mem (x : float) (s : list float) : bool :=
  existsb (fun y => PrimFloat.eqb y x) s.

Definition set_add (s : list float) (x : float) : list float :=
  if mem x s then s else s ++ [x].

Definition set_of (xs : list float) : list float := fold_left set_add xs [].

(** [q & c] *)
Definition inter (q c : list float) : list float :=
  filter (fun x => mem x c) q.

(** [q == c] on sets: same size and [q] included in [c]. *)
Definition set_eqb (q c : list float) : bool :=
  (List.length q =? List.length c) && forallb (fun x => mem x c) q.

(** Truth value of a collection. *)
Definition truthy {A : Type} (l : list A) : bool :=
  match l with
  | [] => false
  | _ :: _ => true
  end.

(** ** The scorer's state *)

Record counters : Type := mkCounters {
  clr : float;
  consistent : nat;
  mutated : nat;
  inconclusive : nat;
  exclusions : nat;
  identity_matches : nat;
  compared : nat
}.

Definition init : counters := mkCounters 1.0 0 0 0 0 0 0.

Record candidate : Type := mkCandidate {
  person_id : string;
  cand_clr : float;
  posterior : float;
  consistent_loci : nat;
  mutated_loci : nat;
  inconclusive_loci : nat
}.

(** The four outcomes of a locus on which both sides have alleles. *)
Inductive outcome : Type := Match | Mutation | Dropout | Exclusion.

(** The operands of [int / int] on two counters.  Python rounds the exact
    quotient once; below 2^53 the conversion is exact, so converting and
    dividing in binary64 gives the same value.  The counters are bounded by
    the number of query loci. *)
Definition float_of_nat (n : nat) : float :=
  PrimFloat.of_uint63 (Uint63.of_Z (Z.of_nat n)).

Section Matcher.

(** The builtin [float] on strings: [None] stands for [ValueError]. *)
Variable py_float : string -> option float.

Definition to_float (s : string) : result float :=
  match py_float s with
  | Some x => Ok x
  | None => Raise (ValueError s)
  end.

(** Lines 64-65:
    [set(map(float, v.split(','))) if ',' in v else {float(v)}] *)
Definition parse_alleles (v : string) : result (list float) :=
  if contains comma v then
    xs <- map_result to_float (split comma v) ;; Ok (set_of xs)
  else
    x <- to_float v ;; Ok (set_of [x]).

(** Line 79:
    [any(abs(qa - ca) <= 1.0 for qa in q for ca in c if 0 < abs(qa - ca) <= 1.0)] *)
Definition any_mutation (q c : list float) : bool :=
  existsb (fun '(qa, ca) => (abs (qa - ca) <=? 1.0)%float)
    (filter (fun '(qa, ca) =>
               ((0 <? abs (qa - ca)) && (abs (qa - ca) <=? 1.0))%float)
       (list_prod q c)).

(** Lines 73-90: which branch of the [if/elif] chain runs. *)
Definition classify (q_alleles c_alleles : list float) : outcome :=
  if truthy (inter q_alleles c_alleles) then Match
  else if any_mutation q_alleles c_alleles then Mutation
  else if (List.length q_alleles =? 1) && (List.length c_alleles =? 1) then Dropout
  else Exclusion.

(** Lines 67-90: the body of the locus loop once both sides are parsed. *)
Definition compare_alleles (st : counters) (q_alleles c_alleles : list float)
  : counters :=
  let compared' := compared st + 1 in
  let identity' :=
    if set_eqb q_alleles c_alleles then identity_matches st + 1
    else identity_matches st in
  let shared := inter q_alleles c_alleles in
  if truthy shared then
    let lr := ((if (List.length c_alleles =? 1)%nat then 1.0 else 0.5) / 0.15)%float in
    mkCounters (clr st * lr) (consistent st + 1) (mutated st)
      (inconclusive st) (exclusions st) identity' compared'
  else if any_mutation q_alleles c_alleles then
    mkCounters (clr st * (0.002 / 0.15)) (consistent st) (mutated st + 1)
      (inconclusive st) (exclusions st) identity' compared'
  else if (List.length q_alleles =? 1) && (List.length c_alleles =? 1) then
    mkCounters (clr st * 0.5) (consistent st) (mutated st)
      (inconclusive st + 1) (exclusions st) identity' compared'
  else
    mkCounters (clr st * 0.01) (consistent st) (mutated st)
      (inconclusive st) (exclusions st + 1) identity' compared'.

(** [v in ('-', '')] *)
Definition is_missing (v : string) : bool :=
  String.eqb v "-" || String.eqb v "".

(** Lines 56-90: one iteration of [for locus in loci]. *)
Definition compare_locus (query_profile candidate_row : dict)
  (st : counters) (locus : string) : result counters :=
  let q_val := strip (get query_profile locus "-") in
  let c_val := strip (get candidate_row locus "-") in
  if is_missing q_val || is_missing c_val then
    Ok (mkCounters (clr st) (consistent st) (mutated st)
          (inconclusive st + 1) (exclusions st)
          (identity_matches st) (compared st))
  else
    q_alleles <- parse_alleles q_val ;;
    c_alleles <- parse_alleles c_val ;;
    Ok (compare_alleles st q_alleles c_alleles).

(** Lines 47-90: the whole locus loop, from the state [st]. *)
Fixpoint scan_loci (query_profile candidate_row : dict) (loci : list string)
  (st : counters) : result counters :=
  match loci with
  | [] => Ok st
  | locus :: rest =>
      st' <- compare_locus query_profile candidate_row st locus ;;
      scan_loci query_profile candidate_row rest st'
  end.

(** Line 93. *)
Definition bad_match (st : counters) : bool :=
  (4 <? exclusions st) || (consistent st <? 5).

(** Line 97. *)
Definition same_person (st : counters) : bool :=
  (0 <? compared st) &&
  (0.80 <? float_of_nat (identity_matches st) / float_of_nat (compared st))%float.

(** Lines 100-109. *)
Definition make_candidate (cand_id : string) (st : counters) : candidate :=
  let posterior :=
    (if 0 <? clr st then clr st / (clr st + 1.0) else 0.0)%float in
  mkCandidate cand_id (clr st) posterior
    (consistent st) (mutated st) (inconclusive st).

(** Lines 43-109: one iteration of the loop over the database rows.
    [None] is a [continue] that appends nothing. *)
Definition score_row (query_profile : dict) (query_id : string)
  (loci : list string) (candidate_row : dict) : result (option candidate) :=
  cand_id <- index candidate_row "PersonID" ;;
  if String.eqb cand_id query_id then Ok None
  else
    st <- scan_loci query_profile candidate_row loci init ;;
    if bad_match st then Ok None
    else if same_person st then Ok None
    else Ok (Some (make_candidate cand_id st)).

(** Lines 42-109: the loop over the rows, appending to [candidates]. *)
Fixpoint scan_rows (query_profile : dict) (query_id : string)
  (loci : list string) (rows : DataFrame) (candidates : list candidate)
  : result (list candidate) :=
  match rows with
  | [] => Ok candidates
  | candidate_row :: rest =>
      r <- score_row query_profile query_id loci candidate_row ;;
      scan_rows query_profile query_id loci rest
        match r with
        | Some c => candidates ++ [c]
        | None => candidates
        end
  end.

End Matcher.

(** ** Sorting

    [list.sort(key=...)] is stable and compares keys with [<] only.  On keys
    that [<] orders as a strict weak order (floats other than NaN) every
    stable sort returns the same list, here built by insertion: an element
    goes in front of the first one whose key is strictly greater. *)

Section Sort.

Context {A : Type}.
Variable key : A -> float.

Fixpoint insert (x : A) (sorted : list A) : list A :=
  match sorted with
  | [] => [x]
  | y :: rest =>
      if (key x <? key y)%float then x :: y :: rest
      else y :: insert x rest
  end.

Definition sort (l : list A) : list A :=
  fold_left (fun sorted x => insert x sorted) l [].

End Sort.

(** Line 111: [lambda x: -x['clr']] *)
Definition sort_key (c : candidate) : float := (- cand_clr c)%float.

(** Line 39: [[c for c in query_profile.keys() if c != 'PersonID']] *)
Definition query_loci (query_profile : dict) : list string :=
  filter (fun c => negb (String.eqb c "PersonID")) (keys query_profile).

Section Driver.

Variable py_float : string -> option float.

(** Lines 38-112. *)
Definition match_single (query_profile : dict) (database_df : DataFrame)
  : result (list candidate) :=
  query_id <- index query_profile "PersonID" ;;
  let loci := query_loci query_profile in
  candidates <- scan_rows py_float query_profile query_id loci database_df [] ;;
  Ok (firstn 10 (sort sort_key candidates)).

(** Lines 129-147, on the two frames already loaded. *)
Fixpoint find_matches_from (database_df queries_df : DataFrame)
  (results : list (string * list candidate))
  : result (list (string * list candidate)) :=
  match queries_df with
  | [] => Ok results
  | query_row :: rest =>
      query_id <- index query_row "PersonID" ;;
      top_candidates <- match_single query_row database_df ;;
      find_matches_from database_df rest
        (results ++ [(query_id, firstn 10 top_candidates)])
  end.

Definition find_matches (database_df queries_df : DataFrame)
  : result (list (string * list candidate)) :=
  find_matches_from database_df queries_df [].

End Driver.

(** ** A concrete parser

    [plain_float] reads an unsigned decimal literal, digits with an optional
    fractional part ("9", "9.3", "12.25"), of at most 15 digits.  The digits
    form an integer [m] below 2^53 and the scale [10^k] is at most 10^15,
    both exact in binary64, so the correctly rounded quotient [m / 10^k] is
    the binary64 value nearest to the literal, which is what Python's
    [float] returns.  Every other string is refused: Python refuses some of
    them ("abc", "") and accepts others (signs, exponents, "nan", padding),
    which this parser leaves out. *)

Definition digit_of (c : ascii) : option Z :=
  let n := nat_of_ascii c in
  if (48 <=? n) && (n <=? 57) then Some (Z.of_nat (n - 48)) else None.

Fixpoint digits_from (acc : Z) (s : string) : option Z :=
  match s with
  | EmptyString => Some acc
  | String c rest =>
      match digit_of c with
      | Some d => digits_from (10 * acc + d)%Z rest
      | None => None
      end
  end.

Definition float_of_Z (z : Z) : float := PrimFloat.of_uint63 (Uint63.of_Z z).

Definition plain_float (s : string) : option float :=
  match split "."%char s with
  | [whole] =>
      if (0 <? String.length whole) && (String.length whole <=? 15) then
        option_map float_of_Z (digits_from 0 whole)
      else None
  | [whole; frac] =>
      if (0 <? String.length whole) && (0 <? String.length frac)
         && (String.length whole + String.length frac <=? 15) then
        match digits_from 0 (whole ++ frac) with
        | Some m =>
            Some (float_of_Z m / float_of_Z (10 ^ Z.of_nat (String.length frac)))%float
        | None => None
        end
      else None
  | _ => None
  end.

(** * Definitions used by the statements *)

(** ** The order of binary64 values

    [rank] sends a float that is not NaN to a triple of integers whose
    lexicographic order is the order of the floats: the class (infinities,
    finite values of either sign, zero), then the exponent, then the
    mantissa. *)

Definition rank (f : spec_float) : Z * Z * Z :=
  match f with
  | S754_nan => (0, 0, 0)
  | S754_zero _ => (0, 0, 0)
  | S754_infinity s => (if s then -2 else 2, 0, 0)
  | S754_finite s m e => if s then (-1, - e, Zneg m) else (1, e, Zpos m)
  end%Z.

Definition cmp3 (a b : Z * Z * Z) : comparison :=
  let '(a1, a2, a3) := a in
  let '(b1, b2, b3) := b in
  match (a1 ?= b1)%Z with
  | Eq => match (a2 ?= b2)%Z with
          | Eq => (a3 ?= b3)%Z
          | c => c
          end
  | c => c
  end.

Definition opp3 (a : Z * Z * Z) : Z * Z * Z :=
  let '(a1, a2, a3) := a in (- a1, - a2, - a3)%Z.

Definition eqb3 (a b : Z * Z * Z) : bool :=
  match cmp3 a b with
  | Eq => true
  | _ => false
  end.

(** A float that is a number: anything but NaN. *)
Definition number (x : float) : Prop := Prim2SF x <> S754_nan.

Definition frank (x : float) : Z * Z * Z := rank (Prim2SF x).

(** [x <= y] and [x < y] read on the ranks. *)
Definition le3 (a b : Z * Z * Z) : Prop := cmp3 a b <> Gt.
Definition lt3 (a b : Z * Z * Z) : Prop := cmp3 a b = Lt.

(** A finite float other than zero. *)
Definition finite_nonzero (x : float) : bool :=
  match Prim2SF x with
  | S754_finite _ _ _ => true
  | _ => false
  end.

(** The order of the sort keys. *)
Definition key_le {A : Type} (key : A -> float) (a b : A) : Prop :=
  le3 (frank (key a)) (frank (key b)).

(** The elements whose key has rank [r]. *)
Definition tie {A : Type} (key : A -> float) (r : Z * Z * Z) (a : A) : bool :=
  eqb3 (frank (key a)) r.

(** No key is a NaN. *)
Definition numbers {A : Type} (key : A -> float) (l : list A) : Prop :=
  Forall (fun a => number (key a)) l.

(** ** The locus rules of the specification

    The ordered rules of the Locus Comparator, written from the
    specification's words, to be compared with [compare_alleles].  The
    differences and comparisons are those of binary64, as in the code. *)

(** The two sets share an allele value. *)
Definition shares (q c : list float) : Prop :=
  exists a b, In a q /\ In b c /\ (a =? b)%float = true.

(** Some cross-pair differs by an absolute value in (0, 1]. *)
Definition near (q c : list float) : Prop :=
  exists a b, In a q /\ In b c /\
    (0 <? abs (a - b))%float = true /\ (abs (a - b) <=? 1.0)%float = true.

Definition singletons (q c : list float) : Prop :=
  List.length q = 1 /\ List.length c = 1.

Inductive locus_rule (q c : list float) : outcome -> float -> Prop :=
| rule_match :
    shares q c ->
    locus_rule q c Match
      ((if (List.length c =? 1)%nat then 1.0 else 0.5) / 0.15)%float
| rule_mutation :
    ~ shares q c -> near q c ->
    locus_rule q c Mutation (0.002 / 0.15)%float
| rule_dropout :
    ~ shares q c -> ~ near q c -> singletons q c ->
    locus_rule q c Dropout 0.5%float
| rule_exclusion :
    ~ shares q c -> ~ near q c -> ~ singletons q c ->
    locus_rule q c Exclusion 0.01%float.

(** The specification's bookkeeping for one compared locus: multiply the
    ratio in, count the outcome (a dropout counts as inconclusive), count the
    locus as compared and, when the sets are equal, as an identity match. *)
Definition tally (st : counters) (q c : list float) (o : outcome) (m : float)
  : counters :=
  {| clr := clr st * m;
     consistent := consistent st + (match o with Match => 1 | _ => 0 end);
     mutated := mutated st + (match o with Mutation => 1 | _ => 0 end);
     inconclusive := inconclusive st + (match o with Dropout => 1 | _ => 0 end);
     exclusions := exclusions st + (match o with Exclusion => 1 | _ => 0 end);
     identity_matches :=
       identity_matches st + (if set_eqb q c then 1 else 0);
     compared := compared st + 1 |}.

(** A list that stands for a set: no two members are equal. *)
Definition distinct (s : list float) : Prop :=
  ForallOrdPairs (fun a b => (a =? b)%float = false) s.

(** ** Missing values and what the counters count *)

(** A side of a locus is missing when the record has no such column or its
    value, trimmed, is empty or the sentinel. *)
Definition missing_side (d : dict) (locus : string) : Prop :=
  match lookup d locus with
  | None => True
  | Some raw => strip raw = "" \/ strip raw = "-"
  end.

Definition present (d : dict) (locus : string) : bool :=
  negb (is_missing (strip (get d locus "-"))).

Definition both_present (q row : dict) (locus : string) : bool :=
  present q locus && present row locus.

(** The alleles of one side of a locus. *)
Definition locus_alleles (py_float : string -> option float)
  (d : dict) (locus : string) : result (list float) :=
  parse_alleles py_float (strip (get d locus "-")).

(** Both sides have alleles and the two sets are equal. *)
Definition identical (py_float : string -> option float)
  (q row : dict) (locus : string) : bool :=
  both_present q row locus &&
  match locus_alleles py_float q locus, locus_alleles py_float row locus with
  | Ok qa, Ok ca => set_eqb qa ca
  | _, _ => false
  end.

(** The locus counters that the scorer reports or filters on, summed. *)
Definition classified (st : counters) : nat :=
  consistent st + mutated st + inconclusive st + exclusions st.

(** The outcome of a locus on which both sides have alleles. *)
Definition locus_outcome (py_float : string -> option float)
  (q row : dict) (locus : string) : option outcome :=
  if both_present q row locus then
    match locus_alleles py_float q locus, locus_alleles py_float row locus with
    | Ok qa, Ok ca => Some (classify qa ca)
    | _, _ => None
    end
  else None.

Definition outcome_eqb (a b : outcome) : bool :=
  match a, b with
  | Match, Match | Mutation, Mutation | Dropout, Dropout
  | Exclusion, Exclusion => true
  | _, _ => false
  end.

(** The number of loci with outcome [o]. *)
Definition count_outcome (py_float : string -> option float)
  (q row : dict) (loci : list string) (o : outcome) : nat :=
  List.length
    (filter (fun l => match locus_outcome py_float q row l with
                      | Some o' => outcome_eqb o' o
                      | None => false
                      end) loci).

Definition count_missing (q row : dict) (loci : list string) : nat :=
  List.length (filter (fun l => negb (both_present q row l)) loci).

(** ** Survivors of the row loop *)

(** What one row adds to [candidates] when its comparison does not raise. *)
Definition survivor (py_float : string -> option float) (q : dict)
  (qid : string) (loci : list string) (row : dict) : list candidate :=
  match score_row py_float q qid loci row with
  | Ok (Some c) => [c]
  | _ => []
  end.

(** [a] may stand before [b] in a ranking: its [clr] is at least [b]'s. *)
Definition descending (a b : candidate) : Prop :=
  (cand_clr b <=? cand_clr a)%float = true.

(** The row's value at a locus reads the same in both rows: the trimmed
    texts are equal, or both are missing (no column, empty, or "-"). *)
Definition same_reading (row row' : dict) (locus : string) : Prop :=
  strip (get row locus "-") = strip (get row' locus "-")
  \/ (present row locus = false /\ present row' locus = false).

(** ** The duplicate threshold on the two counters *)

(** Line 97's test on the two counters. *)
Definition fraction_test (same n : nat) : bool :=
  (0.80 <? float_of_nat same / float_of_nat n)%float.

Fixpoint zrange (from : Z) (len : nat) : list Z :=
  match len with
  | 0 => []
  | S k => from :: zrange (from + 1) k
  end.

(** The binary64 test agrees with [same / n > 4/5] for all [n] from 1 to
    [bound] and all [same] from 0 to [n]. *)
Definition fraction_exact_upto (bound : nat) : bool :=
  forallb
    (fun n =>
       forallb
         (fun same =>
            Bool.eqb (0.80 <? float_of_Z same / float_of_Z n)%float
              (4 * n <? 5 * same)%Z)
         (zrange 0 (Z.to_nat n + 1)))
    (zrange 1 bound).

(** ** Rows that can be compared *)

(** Both raw values of a locus are numbers wherever both are present. *)
Definition locus_parses (py_float : string -> option float)
  (q row : dict) (locus : string) : Prop :=
  both_present q row locus = true ->
  (exists a, locus_alleles py_float q locus = Ok a)
  /\ (exists b, locus_alleles py_float row locus = Ok b).

(** The row has an identifier and, unless it is the query's own, its values
    and the query's are numbers on every locus where both are present. *)
Definition comparable (py_float : string -> option float)
  (q : dict) (qid : string) (loci : list string) (row : dict) : Prop :=
  exists cid,
    index row "PersonID" = Ok cid
    /\ (cid <> qid ->
        forall locus, In locus loci -> locus_parses py_float q row locus).

(** ** The sign of a score *)

(** Neither NaN nor negative: the sign bit is clear. *)
Definition sign_clear (f : spec_float) : bool :=
  match f with
  | S754_nan => false
  | S754_zero s | S754_infinity s | S754_finite s _ _ => negb s
  end.

(** A finite float greater than zero. *)
Definition positive_finite (x : float) : bool :=
  match Prim2SF x with
  | S754_finite false _ _ => true
  | _ => false
  end.

(** ** A small database *)

Definition sample_query : dict :=
  [("PersonID", "Q1"); ("TH01", "9,9.3"); ("D3S1358", "15,16");
   ("vWA", "17,18"); ("FGA", "21,22"); ("D8S1179", "13,14");
   ("D21S11", "30")].

(** Shares one allele on five loci and the single allele on the sixth. *)
Definition row_p1 : dict :=
  [("PersonID", "P1"); ("TH01", "9.3,7"); ("D3S1358", "15,17");
   ("vWA", "17,19"); ("FGA", "21,23"); ("D8S1179", "13,15");
   ("D21S11", "30")].

(** The genotypes of [row_p1] under another identifier. *)
Definition row_p2 : dict :=
  [("PersonID", "P2"); ("TH01", "9.3,7"); ("D3S1358", "15,17");
   ("vWA", "17,19"); ("FGA", "21,23"); ("D8S1179", "13,15");
   ("D21S11", "30")].

(** One step away on the sixth locus. *)
Definition row_p3 : dict :=
  [("PersonID", "P3"); ("TH01", "9.3,7"); ("D3S1358", "15,17");
   ("vWA", "17,19"); ("FGA", "21,23"); ("D8S1179", "13,15");
   ("D21S11", "31")].

(** The sixth locus is missing. *)
Definition row_p4 : dict :=
  [("PersonID", "P4"); ("TH01", "9.3,7"); ("D3S1358", "15,17");
   ("vWA", "17,19"); ("FGA", "21,23"); ("D8S1179", "13,15");
   ("D21S11", "-")].

(** One matching locus, no column for the others. *)
Definition row_p5 : dict :=
  [("PersonID", "P5"); ("TH01", "9,9.3")].

(** The query's genotypes under another identifier. *)
Definition row_p6 : dict :=
  [("PersonID", "P6"); ("TH01", "9,9.3"); ("D3S1358", "15,16");
   ("vWA", "17,18"); ("FGA", "21,22"); ("D8S1179", "13,14");
   ("D21S11", "30")].

(** Nothing in common on any locus. *)
Definition row_p7 : dict :=
  [("PersonID", "P7"); ("TH01", "40,41"); ("D3S1358", "40,41");
   ("vWA", "40,41"); ("FGA", "40,41"); ("D8S1179", "40,41");
   ("D21S11", "40,41")].

(** The query's own row, with values that do not even parse. *)
Definition row_self : dict :=
  [("PersonID", "Q1"); ("TH01", "n/a"); ("D3S1358", "15,16")].

Definition sample_db : DataFrame :=
  [row_self; row_p3; row_p1; row_p4; row_p5; row_p2; row_p6; row_p7].

(** The query with a value that is not a number on the sixth locus. *)
Definition query_bad : dict :=
  [("PersonID", "Q1"); ("TH01", "9,9.3"); ("D3S1358", "15,16");
   ("vWA", "17,18"); ("FGA", "21,22"); ("D8S1179", "13,14");
   ("D21S11", "x")].

Definition query_no_loci : dict := [("PersonID", "Q9")].

(** [row_p4] as another file could hold it: one more column, padded values
    and no column for the sixth locus. *)
Definition row_p4_padded : dict :=
  [("Batch", "7"); ("PersonID", "P4"); ("TH01", " 9.3,7"); ("D3S1358", "15,17 ");
   ("vWA", "17,19"); ("FGA", "21,23"); ("D8S1179", "13,15")].

(** [row_p4] with the value of the sixth locus left empty. *)
Definition row_p4_empty : dict :=
  [("PersonID", "P4"); ("TH01", "9.3,7"); ("D3S1358", "15,17");
   ("vWA", "17,19"); ("FGA", "21,23"); ("D8S1179", "13,15");
   ("D21S11", "")].

(** A query with a single locus, which [row_p6] matches exactly. *)
Definition query_one_locus : dict := [("PersonID", "Q1"); ("TH01", "9,9.3")].

(** A query of [n] loci, all "9,10", and a row of another person who has
    the single allele "9" on each of them. *)
Definition locus_name (k : nat) : string :=
  "L" ++ NilEmpty.string_of_uint (Nat.to_uint k).

Definition many_loci_query (n : nat) : dict :=
  ("PersonID", "Q1") :: map (fun k => (locus_name k, "9,10")) (seq 0 n).

Definition many_loci_row (n : nat) : dict :=
  ("PersonID", "P1") :: map (fun k => (locus_name k, "9")) (seq 0 n).

Definition overflow_ranking : list candidate :=
  Eval vm_compute in
    match match_single plain_float (many_loci_query 380) [many_loci_row 380]
    with
    | Ok ranking => ranking
    | Raise _ => []
    end.

Definition sample_ranking : list candidate :=
  Eval vm_compute in
    match match_single plain_float sample_query sample_db with
    | Ok ranking => ranking
    | Raise _ => []
    end.

(** * Properties *)

(** ** The order of the ranks *)

Lemma cmp3_refl a : cmp3 a a = Eq.
Proof.
  destruct a as [[a1 a2] a3]; simpl. now rewrite !Z.compare_refl.
Qed.

Lemma cmp3_eq a b : cmp3 a b = Eq <-> a = b.
Proof.
  destruct a as [[a1 a2] a3], b as [[b1 b2] b3]; simpl; split.
  - destruct (Z.compare_spec a1 b1); try discriminate.
    destruct (Z.compare_spec a2 b2); try discriminate.
    destruct (Z.compare_spec a3 b3); try discriminate.
    intros _; congruence.
  - intros E; inversion E; subst. now rewrite !Z.compare_refl.
Qed.

Lemma cmp3_antisym a b : cmp3 b a = CompOpp (cmp3 a b).
Proof.
  destruct a as [[a1 a2] a3], b as [[b1 b2] b3]; simpl.
  rewrite (Z.compare_antisym a1 b1), (Z.compare_antisym a2 b2),
    (Z.compare_antisym a3 b3).
  destruct (a1 ?= b1)%Z, (a2 ?= b2)%Z, (a3 ?= b3)%Z; reflexivity.
Qed.

Lemma cmp3_opp a b : cmp3 (opp3 a) (opp3 b) = cmp3 b a.
Proof.
  destruct a as [[a1 a2] a3], b as [[b1 b2] b3]; simpl.
  now rewrite !Z.compare_opp.
Qed.

Ltac cmp3_cases :=
  repeat match goal with
    | |- context [(?x ?= ?y)%Z] => destruct (Z.compare_spec x y)
    | H : context [(?x ?= ?y)%Z] |- _ => destruct (Z.compare_spec x y)
    end.

Lemma le3_trans a b c : le3 a b -> le3 b c -> le3 a c.
Proof.
  unfold le3.
  destruct a as [[a1 a2] a3], b as [[b1 b2] b3], c as [[c1 c2] c3]; simpl.
  intros Hab Hbc; cmp3_cases; try congruence; try lia.
Qed.

Lemma lt3_le3_trans a b c : lt3 a b -> le3 b c -> lt3 a c.
Proof.
  unfold le3, lt3.
  destruct a as [[a1 a2] a3], b as [[b1 b2] b3], c as [[c1 c2] c3]; simpl.
  intros Hab Hbc; cmp3_cases; try congruence; try lia.
Qed.

Lemma le3_total a b : le3 a b \/ lt3 b a.
Proof.
  unfold le3, lt3. rewrite (cmp3_antisym a b).
  destruct (cmp3 a b); simpl; [left | left | right]; congruence.
Qed.

Lemma opp3_inj a b : opp3 a = opp3 b -> a = b.
Proof.
  destruct a as [[a1 a2] a3], b as [[b1 b2] b3]; simpl.
  intros E; inversion E. f_equal; [f_equal | ]; lia.
Qed.

Lemma eqb3_iff a b : eqb3 a b = true <-> a = b.
Proof.
  unfold eqb3. rewrite <- cmp3_eq. destruct (cmp3 a b); split; congruence.
Qed.

(** ** Comparisons of floats, read on the ranks *)

Lemma SFcompare_rank f1 f2 :
  f1 <> S754_nan -> f2 <> S754_nan ->
  SFcompare f1 f2 = Some (cmp3 (rank f1) (rank f2)).
Proof.
  destruct f1 as [s1 | s1 | | s1 m1 e1], f2 as [s2 | s2 | | s2 m2 e2];
    try congruence; intros _ _;
    try (destruct s1); try (destruct s2); try reflexivity; simpl.
  all: try rewrite Z.compare_opp, (Z.compare_antisym e1 e2).
  all: destruct (e1 ?= e2)%Z; simpl; try reflexivity.
Qed.

Lemma ltb_rank x y :
  number x -> number y ->
  ((x <? y)%float = true <-> lt3 (frank x) (frank y)).
Proof.
  intros Hx Hy. rewrite FloatAxioms.ltb_spec. unfold SFltb, lt3, frank.
  rewrite (SFcompare_rank _ _ Hx Hy).
  destruct (cmp3 _ _); split; congruence.
Qed.

Lemma ltb_false_rank x y :
  number x -> number y ->
  ((x <? y)%float = false <-> le3 (frank y) (frank x)).
Proof.
  intros Hx Hy. rewrite FloatAxioms.ltb_spec. unfold SFltb, le3, frank.
  rewrite (SFcompare_rank _ _ Hx Hy), (cmp3_antisym (rank (Prim2SF x))).
  destruct (cmp3 _ _); simpl; split; congruence.
Qed.

Lemma leb_rank x y :
  number x -> number y ->
  ((x <=? y)%float = true <-> le3 (frank x) (frank y)).
Proof.
  intros Hx Hy. rewrite FloatAxioms.leb_spec. unfold SFleb, le3, frank.
  rewrite (SFcompare_rank _ _ Hx Hy).
  destruct (cmp3 _ _); split; congruence.
Qed.

Lemma eqb_rank x y :
  number x -> number y ->
  ((x =? y)%float = true <-> frank x = frank y).
Proof.
  intros Hx Hy. rewrite FloatAxioms.eqb_spec. unfold SFeqb, frank.
  rewrite (SFcompare_rank _ _ Hx Hy), <- cmp3_eq.
  destruct (cmp3 _ _); split; congruence.
Qed.

Lemma float_eqb_sym a b : (a =? b)%float = (b =? a)%float.
Proof.
  rewrite !FloatAxioms.eqb_spec. unfold SFeqb.
  destruct (Prim2SF a) eqn:Ea; destruct (Prim2SF b) eqn:Eb;
    try reflexivity;
    rewrite !SFcompare_rank, (cmp3_antisym (rank _) (rank _)) by discriminate;
    destruct (cmp3 _ _); reflexivity.
Qed.

Lemma eqb_nan x k : ~ number k -> (x =? k)%float = false.
Proof.
  unfold number. rewrite FloatAxioms.eqb_spec. unfold SFeqb.
  destruct (Prim2SF k); try (intros H; exfalso; apply H; discriminate).
  intros _. now destruct (Prim2SF x).
Qed.

Lemma number_dec k : number k \/ ~ number k.
Proof.
  unfold number. destruct (Prim2SF k); [left | left | right | left];
    try discriminate. intros H; now apply H.
Qed.

Lemma number_opp x : number x -> number (- x).
Proof.
  unfold number. rewrite FloatAxioms.opp_spec. now destruct (Prim2SF x).
Qed.

Lemma number_of_opp x : number (- x) -> number x.
Proof.
  unfold number. rewrite FloatAxioms.opp_spec.
  destruct (Prim2SF x); simpl; congruence.
Qed.

Lemma frank_opp x : frank (- x) = opp3 (frank x).
Proof.
  unfold frank. rewrite FloatAxioms.opp_spec.
  destruct (Prim2SF x) as [s | s | | s m e]; try destruct s; simpl;
    rewrite ?Z.opp_involutive; reflexivity.
Qed.

(** ** Rounding never produces a NaN *)

Lemma shr_1_nonneg mrs : (0 <= shr_m mrs)%Z -> (0 <= shr_m (shr_1 mrs))%Z.
Proof.
  destruct mrs as [m r s]; simpl.
  destruct m as [ | [p | p | ] | p]; simpl; lia.
Qed.

Lemma iter_shr_1_nonneg n mrs :
  (0 <= shr_m mrs)%Z -> (0 <= shr_m (iter_pos shr_1 n mrs))%Z.
Proof.
  revert mrs.
  induction n as [n IH | n IH | ]; intros mrs H; simpl;
    auto using shr_1_nonneg.
Qed.

Lemma shr_fexp_nonneg m e l :
  (0 <= m)%Z -> (0 <= shr_m (fst (shr_fexp prec emax m e l)))%Z.
Proof.
  intros H. unfold shr_fexp, shr.
  assert (H0 : (0 <= shr_m (shr_record_of_loc m l))%Z)
    by (destruct l as [ | [ | | ]]; exact H).
  destruct (_ - e)%Z; simpl; auto using iter_shr_1_nonneg.
Qed.

Lemma round_nearest_even_nonneg m l :
  (0 <= m)%Z -> (0 <= round_nearest_even m l)%Z.
Proof.
  intros H. destruct l as [ | [ | | ]]; simpl; try lia.
  destruct (Z.even m); lia.
Qed.

Lemma binary_round_aux_number s p e :
  binary_round_aux prec emax s (Zpos p) e loc_Exact <> S754_nan.
Proof.
  unfold binary_round_aux.
  pose proof (shr_fexp_nonneg (Zpos p) e loc_Exact ltac:(lia)) as H1.
  destruct (shr_fexp prec emax (Zpos p) e loc_Exact) as [mrs1 e1]; simpl in H1.
  pose proof (shr_fexp_nonneg _ e1 loc_Exact
                (round_nearest_even_nonneg _ (loc_of_shr_record mrs1) H1)) as H2.
  destruct (shr_fexp prec emax _ e1 loc_Exact) as [mrs2 e2]; simpl in H2.
  destruct (shr_m mrs2); try lia; try discriminate.
  destruct (_ <=? _)%Z; discriminate.
Qed.

Lemma number_mul x m :
  number x -> finite_nonzero m = true -> number (x * m).
Proof.
  unfold number, finite_nonzero. rewrite FloatAxioms.mul_spec. unfold SF64mul.
  destruct (Prim2SF x) as [sx | sx | | sx mx ex],
           (Prim2SF m) as [sm | sm | | sm mm em];
    try congruence; try discriminate; intros _ _; simpl;
    try discriminate.
  apply binary_round_aux_number.
Qed.

Lemma multipliers_finite :
  finite_nonzero (1.0 / 0.15) = true /\ finite_nonzero (0.5 / 0.15) = true
  /\ finite_nonzero (0.002 / 0.15) = true /\ finite_nonzero 0.5 = true
  /\ finite_nonzero 0.01 = true.
Proof. vm_compute. repeat split. Qed.

Lemma number_one : number 1.0.
Proof. unfold number. vm_compute. discriminate. Qed.

(** ** The locus comparator *)

Lemma mem_iff x s : mem x s = true <-> exists y, In y s /\ (x =? y)%float = true.
Proof.
  unfold mem. rewrite existsb_exists.
  split; intros [y [Hy E]]; exists y; split; auto;
    now rewrite float_eqb_sym.
Qed.

Lemma truthy_iff {A : Type} (l : list A) : truthy l = true <-> exists x, In x l.
Proof.
  destruct l as [ | x l]; simpl; split.
  - discriminate.
  - intros [x []].
  - intros _; exists x; now left.
  - reflexivity.
Qed.

Lemma shares_iff q c : truthy (inter q c) = true <-> shares q c.
Proof.
  rewrite truthy_iff. unfold inter, shares. split.
  - intros [a Ha]. apply filter_In in Ha as [Ha Hm].
    apply mem_iff in Hm as [b [Hb E]]. now exists a, b.
  - intros [a [b [Ha [Hb E]]]]. exists a. apply filter_In. split; auto.
    apply mem_iff. now exists b.
Qed.

Lemma near_iff q c : any_mutation q c = true <-> near q c.
Proof.
  unfold any_mutation, near. rewrite existsb_exists. split.
  - intros [[a b] [Hin Hle]]. apply filter_In in Hin as [Hin Hc].
    apply in_prod_iff in Hin as [Ha Hb].
    apply andb_true_iff in Hc as [H0 H1]. now exists a, b.
  - intros [a [b [Ha [Hb [H0 H1]]]]]. exists (a, b). split; auto.
    apply filter_In. split.
    + now apply in_prod_iff.
    + now rewrite H0, H1.
Qed.

Lemma singletons_iff q c :
  ((List.length q =? 1)%nat && (List.length c =? 1)%nat)%bool = true
  <-> singletons q c.
Proof.
  unfold singletons. now rewrite andb_true_iff, !Nat.eqb_eq.
Qed.

Lemma not_true_of_false (b : bool) (P : Prop) :
  (b = true <-> P) -> b = false -> ~ P.
Proof. intros H E HP. apply H in HP. congruence. Qed.

(** [classify] picks the one rule of the specification that applies. *)
Lemma classify_rule q c :
  exists m, locus_rule q c (classify q c) m /\
    forall o' m', locus_rule q c o' m' -> o' = classify q c /\ m' = m.
Proof.
  unfold classify.
  destruct (truthy (inter q c)) eqn:Es;
    [ | destruct (any_mutation q c) eqn:En;
        [ | destruct ((List.length q =? 1)%nat && (List.length c =? 1)%nat)%bool
              eqn:E1 ] ].
  - apply shares_iff in Es.
    eexists; split; [now apply rule_match | ].
    intros o' m' R; inversion R; subst; auto; contradiction.
  - apply (not_true_of_false _ _ (shares_iff q c)) in Es.
    apply near_iff in En.
    eexists; split; [now apply rule_mutation | ].
    intros o' m' R; inversion R; subst; auto; contradiction.
  - apply (not_true_of_false _ _ (shares_iff q c)) in Es.
    apply (not_true_of_false _ _ (near_iff q c)) in En.
    apply singletons_iff in E1.
    eexists; split; [now apply rule_dropout | ].
    intros o' m' R; inversion R; subst; auto; contradiction.
  - apply (not_true_of_false _ _ (shares_iff q c)) in Es.
    apply (not_true_of_false _ _ (near_iff q c)) in En.
    apply (not_true_of_false _ _ (singletons_iff q c)) in E1.
    eexists; split; [now apply rule_exclusion | ].
    intros o' m' R; inversion R; subst; auto; contradiction.
Qed.

(** The loop body does the bookkeeping of the rule [classify] picks. *)
Lemma compare_alleles_tally (st : counters) (q c : list float) :
  exists m,
    locus_rule q c (classify q c) m
    /\ compare_alleles st q c = tally st q c (classify q c) m.
Proof.
  destruct (classify_rule q c) as [m [R _]].
  exists m. split; [exact R | ].
  unfold compare_alleles, tally. revert R. unfold classify.
  destruct (truthy (inter q c));
    [ | destruct (any_mutation q c);
        [ | destruct ((List.length q =? 1)%nat && (List.length c =? 1)%nat)%bool ] ];
    intros R; inversion R; subst;
    destruct (set_eqb q c); f_equal; lia.
Qed.

(** C1. For two parsed (non-missing) allele sets, exactly one rule of the
    ordered decision tree applies: Match with ratio (1.0 or 0.5)/0.15 when
    the sets share a value, else Mutation with 0.002/0.15 when a cross-pair
    differs by a value in (0, 1], else Dropout with 0.5 when both sets are
    singletons, else Exclusion with 0.01; the loop body multiplies [clr] by
    that rule's ratio and counts that rule's outcome, and nothing else. *)
Theorem locus_decision_tree (st : counters) (q c : list float) :
  exists o m,
    locus_rule q c o m
    /\ (forall o' m', locus_rule q c o' m' -> o' = o /\ m' = m)
    /\ compare_alleles st q c = tally st q c o m.
Proof.
  destruct (compare_alleles_tally st q c) as [m [R E]].
  destruct (classify_rule q c) as [m0 [R0 U]].
  destruct (U _ _ R) as [_ ->].
  exists (classify q c), m0. split; [exact R0 | split; [exact U | exact E]].
Qed.

(** The four rules, each on one pair of allele sets. *)
Example locus_rules_on_samples :
  classify [9; 9.3]%float [9.3; 7]%float = Match
  /\ classify [30]%float [31]%float = Mutation
  /\ classify [30]%float [33]%float = Dropout
  /\ classify [9; 9.3]%float [40; 41]%float = Exclusion.
Proof. vm_compute. repeat split. Qed.

(** ** Missing values *)

Lemma is_missing_iff v : is_missing v = true <-> v = "" \/ v = "-".
Proof.
  unfold is_missing. rewrite orb_true_iff, !String.eqb_eq. tauto.
Qed.

Lemma missing_side_iff d locus :
  missing_side d locus <-> present d locus = false.
Proof.
  unfold missing_side, present, get. rewrite negb_false_iff, is_missing_iff.
  destruct (lookup d locus); [tauto | ].
  split; [intros _; now right | trivial].
Qed.

(** C7. A locus on which either side is missing (no such column, or a value
    that trims to the empty string or to "-") is counted as inconclusive and
    nothing else happens: [clr] is unchanged, no rule of the decision tree is
    applied, nothing is parsed, and [compared] is not incremented. *)
Theorem missing_locus_is_inconclusive
  (py_float : string -> option float) (q row : dict) (st : counters)
  (locus : string) :
  missing_side q locus \/ missing_side row locus ->
  compare_locus py_float q row st locus =
    Ok {| clr := clr st;
          consistent := consistent st;
          mutated := mutated st;
          inconclusive := inconclusive st + 1;
          exclusions := exclusions st;
          identity_matches := identity_matches st;
          compared := compared st |}.
Proof.
  rewrite !missing_side_iff. unfold present, compare_locus.
  rewrite !negb_false_iff.
  intros [H | H]; rewrite H; [ | rewrite orb_true_r]; reflexivity.
Qed.

Lemma missing_locus_is_inconclusive_witness :
  compare_locus plain_float sample_query row_p4 init "D21S11" =
    Ok {| clr := 1.0; consistent := 0; mutated := 0; inconclusive := 1;
          exclusions := 0; identity_matches := 0; compared := 0 |}.
Proof.
  apply (missing_locus_is_inconclusive plain_float sample_query row_p4 init
           "D21S11").
  right. simpl. right. reflexivity.
Defined.

(** ** The parsed alleles are sets *)

Lemma set_add_distinct s x : distinct s -> distinct (set_add s x).
Proof.
  unfold set_add, distinct. intros H.
  destruct (mem x s) eqn:E; [exact H | ].
  induction H as [ | a l Ha Hl IH]; simpl.
  - repeat constructor.
  - simpl in E. apply orb_false_iff in E as [Ea El].
    constructor; [ | now apply IH].
    apply Forall_app. split; [exact Ha | now repeat constructor].
Qed.

Lemma set_of_distinct xs : distinct (set_of xs).
Proof.
  unfold set_of.
  assert (G : forall acc, distinct acc -> distinct (fold_left set_add xs acc)).
  { induction xs as [ | x xs IH]; intros acc H; simpl; [exact H | ].
    apply IH. now apply set_add_distinct. }
  apply G. constructor.
Qed.

Lemma parse_alleles_distinct py_float v s :
  parse_alleles py_float v = Ok s -> distinct s.
Proof.
  unfold parse_alleles. destruct (contains comma v).
  - destruct (map_result _ _) as [xs | e]; simpl; [ | discriminate].
    intros E; inversion E. apply set_of_distinct.
  - destruct (to_float py_float v) as [x | e]; simpl; [ | discriminate].
    intros E; inversion E. apply set_of_distinct.
Qed.

(** X2. On a locus where both sides are present and parse, the loop body
    applies the one rule of the decision tree to the two sets of distinct alleles. *)
Theorem compare_locus_applies_rule
  (py_float : string -> option float) (qp row : dict) (st : counters)
  (locus : string) (q c : list float) :
  both_present qp row locus = true ->
  locus_alleles py_float qp locus = Ok q ->
  locus_alleles py_float row locus = Ok c ->
  distinct q /\ distinct c
  /\ exists o m,
       locus_rule q c o m
       /\ compare_locus py_float qp row st locus = Ok (tally st q c o m).
Proof.
  unfold both_present, present, locus_alleles. intros Hp Hq Hc.
  split; [eapply parse_alleles_distinct; eassumption | ].
  split; [eapply parse_alleles_distinct; eassumption | ].
  destruct (compare_alleles_tally st q c) as [m [R E]].
  exists (classify q c), m. split; [exact R | ].
  unfold compare_locus. apply andb_true_iff in Hp as [H1 H2].
  apply negb_true_iff in H1, H2. rewrite H1, H2, Hq, Hc. simpl.
  now rewrite E.
Qed.

Lemma compare_locus_applies_rule_witness :
  exists o m,
    locus_rule [30]%float [31]%float o m
    /\ compare_locus plain_float sample_query row_p3 init "D21S11"
       = Ok (tally init [30]%float [31]%float o m).
Proof.
  apply (compare_locus_applies_rule plain_float sample_query row_p3 init
           "D21S11" [30]%float [31]%float); vm_compute; reflexivity.
Defined.

(** ** What the locus loop maintains *)

Lemma compare_alleles_number st q c :
  number (clr st) -> number (clr (compare_alleles st q c)).
Proof.
  intros H. destruct multipliers_finite as [M1 [M2 [M3 [M4 M5]]]].
  unfold compare_alleles.
  destruct (truthy _); [ | destruct (any_mutation _ _); [ | destruct (_ && _)%bool ]];
    simpl; try (apply number_mul; assumption).
  destruct (_ =? 1)%nat; apply number_mul; assumption.
Qed.

Lemma compare_alleles_counts st q c :
  classified (compare_alleles st q c) = classified st + 1
  /\ compared (compare_alleles st q c) = compared st + 1
  /\ identity_matches (compare_alleles st q c) =
       identity_matches st + (if set_eqb q c then 1 else 0).
Proof.
  destruct (compare_alleles_tally st q c) as [m [_ E]]. rewrite E.
  unfold classified, tally; simpl. destruct (classify q c); repeat split; lia.
Qed.

Lemma compare_locus_counts py_float q row st locus st' :
  compare_locus py_float q row st locus = Ok st' ->
  classified st' = classified st + 1
  /\ compared st' = compared st + (if both_present q row locus then 1 else 0)
  /\ identity_matches st' =
       identity_matches st + (if identical py_float q row locus then 1 else 0)
  /\ (number (clr st) -> number (clr st')).
Proof.
  unfold compare_locus, identical, both_present, present, locus_alleles.
  destruct (is_missing (strip (get q locus "-"))) eqn:Eq;
    destruct (is_missing (strip (get row locus "-"))) eqn:Er; simpl;
    try (intros E; inversion E; subst; unfold classified; simpl;
         repeat split; auto; lia).
  destruct (parse_alleles py_float (strip (get q locus "-"))) as [qa | e];
    simpl; [ | discriminate].
  destruct (parse_alleles py_float (strip (get row locus "-"))) as [ca | e];
    simpl; [ | discriminate].
  intros E; inversion E; subst.
  destruct (compare_alleles_counts st qa ca) as [H1 [H2 H3]].
  repeat split; auto using compare_alleles_number.
Qed.

Lemma scan_loci_counts py_float q row loci : forall st st',
  scan_loci py_float q row loci st = Ok st' ->
  classified st' = classified st + List.length loci
  /\ compared st' = compared st + List.length (filter (both_present q row) loci)
  /\ identity_matches st' =
       identity_matches st
       + List.length (filter (identical py_float q row) loci)
  /\ (number (clr st) -> number (clr st')).
Proof.
  induction loci as [ | locus rest IH]; intros st st'; simpl.
  - intros E; inversion E; subst. repeat split; auto; lia.
  - destruct (compare_locus py_float q row st locus) as [st1 | e] eqn:E1;
      simpl; [ | discriminate].
    intros E. apply IH in E as [H1 [H2 [H3 H4]]].
    apply compare_locus_counts in E1 as [K1 [K2 [K3 K4]]].
    destruct (both_present q row locus), (identical py_float q row locus);
      simpl; repeat split; auto; lia.
Qed.

Lemma scan_loci_outcomes py_float q row loci : forall st st',
  scan_loci py_float q row loci st = Ok st' ->
  consistent st' = consistent st + count_outcome py_float q row loci Match
  /\ mutated st' = mutated st + count_outcome py_float q row loci Mutation
  /\ inconclusive st' =
       inconclusive st + count_outcome py_float q row loci Dropout
       + count_missing q row loci
  /\ exclusions st' = exclusions st + count_outcome py_float q row loci Exclusion.
Proof.
  unfold count_outcome, count_missing.
  induction loci as [ | locus rest IH]; intros st st'; simpl.
  - intros E; inversion E; subst. repeat split; lia.
  - destruct (compare_locus py_float q row st locus) as [st1 | e] eqn:E1;
      simpl; [ | discriminate].
    intros E. apply IH in E as [H1 [H2 [H3 H4]]].
    rewrite H1, H2, H3, H4. clear H1 H2 H3 H4 IH.
    revert E1. unfold compare_locus, locus_outcome, both_present, present,
      locus_alleles.
    destruct (is_missing (strip (get q locus "-")));
      destruct (is_missing (strip (get row locus "-"))); simpl;
      try (intros E; inversion E; subst; simpl; repeat split; lia).
    destruct (parse_alleles py_float (strip (get q locus "-"))) as [qa | e];
      simpl; [ | discriminate].
    destruct (parse_alleles py_float (strip (get row locus "-"))) as [ca | e];
      simpl; [ | discriminate].
    intros E; inversion E; subst; clear E.
    destruct (compare_alleles_tally st qa ca) as [m [_ ->]].
    unfold tally. destruct (classify qa ca); simpl; repeat split; lia.
Qed.

Lemma identical_le_present py_float q row loci :
  List.length (filter (identical py_float q row) loci)
  <= List.length (filter (both_present q row) loci).
Proof.
  induction loci as [ | l loci IH]; [reflexivity | ].
  cbn [filter].
  destruct (identical py_float q row l) eqn:E.
  - unfold identical in E. apply andb_true_iff in E as [-> _].
    cbn [List.length]. lia.
  - destruct (both_present q row l); cbn [List.length]; lia.
Qed.

(** C3, as the claim states it, fails on [row_p4]: the candidate is scored
    and returned, five loci are compared, and the four counters add up to
    six, the missing locus being counted as inconclusive. *)
Lemma count_invariant_counterexample :
  exists st c,
    scan_loci plain_float sample_query row_p4 (query_loci sample_query) init
      = Ok st
    /\ score_row plain_float sample_query "Q1" (query_loci sample_query) row_p4
       = Ok (Some c)
    /\ List.length
         (filter (both_present sample_query row_p4) (query_loci sample_query))
       = 5
    /\ compared st = 5
    /\ consistent st + mutated st + inconclusive st + exclusions st = 6
    /\ consistent st + mutated st + inconclusive st + exclusions st
       <> compared st.
Proof.
  eexists. eexists.
  split; [vm_compute; reflexivity | ].
  split; [vm_compute; reflexivity | ].
  simpl. repeat split; lia.
Qed.

(** C3 (as the code has it). When a comparison runs to the end, the four
    locus counters add up to the number of query loci: [compared] counts the
    loci on which both sides are present, and every locus with a missing
    side is counted as well, as inconclusive. *)
Theorem count_conservation
  (py_float : string -> option float) (q row : dict) (loci : list string)
  (st : counters) :
  scan_loci py_float q row loci init = Ok st ->
  consistent st + mutated st + inconclusive st + exclusions st
    = List.length loci
  /\ compared st = List.length (filter (both_present q row) loci)
  /\ consistent st + mutated st + inconclusive st + exclusions st
     = compared st
       + List.length (filter (fun l => negb (both_present q row l)) loci).
Proof.
  intros H. apply scan_loci_counts in H as [H1 [H2 _]].
  unfold classified in H1. simpl in H1, H2.
  split; [exact H1 | split; [exact H2 | ]].
  rewrite H1, H2. clear.
  induction loci as [ | l loci IH]; simpl; [reflexivity | ].
  destruct (both_present q row l); simpl; lia.
Qed.

Lemma count_conservation_witness :
  exists st,
    scan_loci plain_float sample_query row_p4 (query_loci sample_query) init
      = Ok st
    /\ consistent st + mutated st + inconclusive st + exclusions st
       = List.length (query_loci sample_query)
    /\ compared st
       = List.length
           (filter (both_present sample_query row_p4) (query_loci sample_query))
    /\ consistent st + mutated st + inconclusive st + exclusions st
       = compared st
         + List.length
             (filter (fun l => negb (both_present sample_query row_p4 l))
                (query_loci sample_query)).
Proof.
  eexists. split; [vm_compute; reflexivity | ].
  apply (count_conservation plain_float sample_query row_p4
           (query_loci sample_query)).
  vm_compute. reflexivity.
Defined.

(** X1. The counters of a comparison that runs to the end count the loci by
    outcome; a locus with a missing side and a dropout are both counted as
    inconclusive. *)
Theorem counters_count_outcomes
  (py_float : string -> option float) (q row : dict) (loci : list string)
  (st : counters) :
  scan_loci py_float q row loci init = Ok st ->
  consistent st = count_outcome py_float q row loci Match
  /\ mutated st = count_outcome py_float q row loci Mutation
  /\ inconclusive st =
       count_outcome py_float q row loci Dropout + count_missing q row loci
  /\ exclusions st = count_outcome py_float q row loci Exclusion.
Proof.
  intros H. apply scan_loci_outcomes in H. simpl in H. exact H.
Qed.

Lemma counters_count_outcomes_witness :
  exists st,
    scan_loci plain_float sample_query row_p3 (query_loci sample_query) init
      = Ok st
    /\ consistent st = 5 /\ mutated st = 1 /\ inconclusive st = 0
    /\ exclusions st = 0.
Proof.
  eexists. split; [vm_compute; reflexivity | ].
  apply (counters_count_outcomes plain_float sample_query row_p3
           (query_loci sample_query)).
  vm_compute. reflexivity.
Defined.

(** ** The loop over the database rows *)

Section Rows.

Variable py_float : string -> option float.
Variables (q : dict) (qid : string) (loci : list string).

Lemma scan_rows_app pre post : forall acc,
  scan_rows py_float q qid loci (pre ++ post) acc =
    (acc' <- scan_rows py_float q qid loci pre acc ;;
     scan_rows py_float q qid loci post acc').
Proof.
  induction pre as [ | row pre IH]; intros acc; simpl; [reflexivity | ].
  destruct (score_row py_float q qid loci row) as [r | e]; simpl; auto.
Qed.

Lemma scan_rows_ok rows : forall acc out,
  scan_rows py_float q qid loci rows acc = Ok out ->
  out = acc ++ flat_map (survivor py_float q qid loci) rows.
Proof.
  induction rows as [ | row rows IH]; intros acc out; simpl.
  - intros E; inversion E. now rewrite app_nil_r.
  - unfold survivor at 1.
    destruct (score_row py_float q qid loci row) as [[c | ] | e]; simpl;
      try discriminate; intros E; apply IH in E; subst;
      now rewrite <- ?app_assoc.
Qed.

Lemma scan_rows_skip pre row post acc :
  score_row py_float q qid loci row = Ok None ->
  scan_rows py_float q qid loci (pre ++ row :: post) acc =
  scan_rows py_float q qid loci (pre ++ post) acc.
Proof.
  intros H. rewrite !scan_rows_app. simpl. now rewrite H.
Qed.

Lemma scan_rows_raise pre row post acc e :
  score_row py_float q qid loci row = Raise e ->
  exists e', scan_rows py_float q qid loci (pre ++ row :: post) acc = Raise e'.
Proof.
  intros H. rewrite scan_rows_app.
  destruct (scan_rows py_float q qid loci pre acc) as [acc' | e']; simpl.
  - rewrite H. now exists e.
  - now exists e'.
Qed.

End Rows.

Lemma match_single_skip py_float q pre row post :
  (forall qid, index q "PersonID" = Ok qid ->
     score_row py_float q qid (query_loci q) row = Ok None) ->
  match_single py_float q (pre ++ row :: post) =
  match_single py_float q (pre ++ post).
Proof.
  intros H. unfold match_single.
  destruct (index q "PersonID") as [qid | e]; simpl; [ | reflexivity].
  now rewrite scan_rows_skip by auto.
Qed.

Lemma score_row_some py_float q qid loci row c :
  score_row py_float q qid loci row = Ok (Some c) ->
  exists cid st,
    index row "PersonID" = Ok cid /\ cid <> qid
    /\ scan_loci py_float q row loci init = Ok st
    /\ bad_match st = false /\ same_person st = false
    /\ c = make_candidate cid st.
Proof.
  unfold score_row.
  destruct (index row "PersonID") as [cid | e]; simpl; [ | discriminate].
  destruct (String.eqb cid qid) eqn:Eid; [discriminate | ].
  destruct (scan_loci _ _ _ _ _) as [st | e]; simpl; [ | discriminate].
  destruct (bad_match st) eqn:Eb; [discriminate | ].
  destruct (same_person st) eqn:Es; [discriminate | ].
  intros E; inversion E; subst. exists cid, st.
  repeat split; auto. now apply String.eqb_neq.
Qed.

Lemma survivor_in py_float q qid loci db c :
  In c (flat_map (survivor py_float q qid loci) db) ->
  exists row, In row db /\ score_row py_float q qid loci row = Ok (Some c).
Proof.
  intros H. apply in_flat_map in H as [row [Hrow Hc]]. exists row.
  split; [exact Hrow | ]. unfold survivor in Hc.
  destruct (score_row _ _ _ _ _) as [[c' | ] | e]; simpl in Hc;
    try contradiction.
  destruct Hc as [-> | []]. reflexivity.
Qed.

Lemma match_single_ok py_float q db ranking :
  match_single py_float q db = Ok ranking ->
  exists qid,
    index q "PersonID" = Ok qid
    /\ ranking =
         firstn 10
           (sort sort_key (flat_map (survivor py_float q qid (query_loci q)) db)).
Proof.
  unfold match_single.
  destruct (index q "PersonID") as [qid | e]; simpl; [ | discriminate].
  destruct (scan_rows _ _ _ _ _ _) as [cands | e] eqn:E; simpl;
    [ | discriminate].
  intros R; inversion R; subst. exists qid. split; [reflexivity | ].
  apply scan_rows_ok in E. now subst cands.
Qed.

(** ** The two filters *)

(** C4. A candidate whose comparison ends with more than 4 exclusions or
    fewer than 5 consistent loci produces no score, whatever its [clr]: the
    ranking is the one the database without that row gives. *)
Theorem threshold_rejection
  (py_float : string -> option float) (q : dict) (qid cid : string)
  (pre post : DataFrame) (row : dict) (st : counters) :
  index q "PersonID" = Ok qid ->
  index row "PersonID" = Ok cid ->
  scan_loci py_float q row (query_loci q) init = Ok st ->
  4 < exclusions st \/ consistent st < 5 ->
  score_row py_float q qid (query_loci q) row = Ok None
  /\ match_single py_float q (pre ++ row :: post) =
     match_single py_float q (pre ++ post).
Proof.
  intros Hq Hrow Hscan Hbad.
  assert (Hnone : score_row py_float q qid (query_loci q) row = Ok None).
  { unfold score_row. rewrite Hrow; simpl.
    destruct (String.eqb cid qid); [reflexivity | ].
    rewrite Hscan; simpl.
    assert (E : bad_match st = true).
    { unfold bad_match. apply orb_true_iff.
      destruct Hbad; [left | right]; now apply Nat.ltb_lt. }
    now rewrite E. }
  split; [exact Hnone | ].
  apply match_single_skip. intros qid' Hq'. congruence.
Qed.

Lemma threshold_rejection_witness :
  score_row plain_float sample_query "Q1" (query_loci sample_query) row_p7
    = Ok None
  /\ match_single plain_float sample_query ([row_p1] ++ row_p7 :: [row_p3]) =
     match_single plain_float sample_query ([row_p1] ++ [row_p3]).
Proof.
  eapply (threshold_rejection plain_float sample_query "Q1" "P7"
            [row_p1] [row_p3] row_p7).
  - reflexivity.
  - reflexivity.
  - vm_compute. reflexivity.
  - left. simpl. lia.
Defined.

Lemma in_zrange len : forall from z,
  (from <= z < from + Z.of_nat len)%Z -> In z (zrange from len).
Proof.
  induction len as [ | k IH]; intros from z H; [lia | ].
  cbn [zrange]. destruct (Z.eq_dec from z) as [-> | Hne]; [now left | right].
  apply IH. lia.
Qed.

Lemma fraction_exact_upto_spec bound same n :
  fraction_exact_upto bound = true ->
  0 < n <= bound -> same <= n ->
  fraction_test same n = (4 * n <? 5 * same).
Proof.
  unfold fraction_exact_upto. intros H Hn Hs.
  rewrite forallb_forall in H.
  assert (Hin : In (Z.of_nat n) (zrange 1 bound)) by (apply in_zrange; lia).
  apply H in Hin. rewrite forallb_forall in Hin.
  assert (Hin' : In (Z.of_nat same) (zrange 0 (Z.to_nat (Z.of_nat n) + 1)))
    by (apply in_zrange; lia).
  apply Hin in Hin'. apply Bool.eqb_prop in Hin'.
  unfold fraction_test, float_of_nat. fold (float_of_Z (Z.of_nat same)).
  fold (float_of_Z (Z.of_nat n)). rewrite Hin'.
  destruct (Z.ltb_spec (4 * Z.of_nat n) (5 * Z.of_nat same));
    destruct (Nat.ltb_spec (4 * n) (5 * same)); try reflexivity; lia.
Qed.

Lemma fraction_exact_1000 : fraction_exact_upto 1000 = true.
Proof. vm_compute. reflexivity. Qed.

(** Up to 1000 compared loci the binary64 test is the exact one. *)
Lemma fraction_test_exact same n :
  0 < n <= 1000 -> same <= n ->
  fraction_test same n = (4 * n <? 5 * same).
Proof. apply fraction_exact_upto_spec, fraction_exact_1000. Qed.

(** C5. A candidate for which more than 0.80 of the compared loci (both
    sides present) carry equal allele sets is rejected as the same person,
    whatever its [clr]: the ranking is the one the database without that row
    gives.  The fraction is the binary64 quotient that line 97 computes; up
    to 1000 compared loci it exceeds 0.80 exactly when [same / n > 4/5]. *)
Theorem duplicate_rejection
  (py_float : string -> option float) (q : dict) (qid cid : string)
  (pre post : DataFrame) (row : dict) (st : counters) :
  let n := List.length (filter (both_present q row) (query_loci q)) in
  let same := List.length (filter (identical py_float q row) (query_loci q)) in
  index q "PersonID" = Ok qid ->
  index row "PersonID" = Ok cid ->
  scan_loci py_float q row (query_loci q) init = Ok st ->
  0 < n ->
  fraction_test same n = true \/ (n <= 1000 /\ 4 * n < 5 * same) ->
  score_row py_float q qid (query_loci q) row = Ok None
  /\ match_single py_float q (pre ++ row :: post) =
     match_single py_float q (pre ++ post).
Proof.
  intros n same Hq Hrow Hscan Hn Hfrac.
  assert (Htest : fraction_test same n = true).
  { destruct Hfrac as [H | [Hb Hgt]]; [exact H | ].
    rewrite fraction_test_exact.
    - now apply Nat.ltb_lt.
    - lia.
    - apply identical_le_present. }
  assert (Hnone : score_row py_float q qid (query_loci q) row = Ok None).
  { unfold score_row. rewrite Hrow; simpl.
    destruct (String.eqb cid qid); [reflexivity | ].
    rewrite Hscan; simpl.
    destruct (bad_match st); [reflexivity | ].
    apply scan_loci_counts in Hscan as [_ [Hc [Hi _]]]. simpl in Hc, Hi.
    assert (E : same_person st = true).
    { unfold same_person. rewrite Hc, Hi. fold n same.
      apply andb_true_iff. split; [now apply Nat.ltb_lt | exact Htest]. }
    now rewrite E. }
  split; [exact Hnone | ].
  apply match_single_skip. intros qid' Hq'. congruence.
Qed.

Lemma duplicate_rejection_witness :
  score_row plain_float sample_query "Q1" (query_loci sample_query) row_p6
    = Ok None
  /\ match_single plain_float sample_query ([row_p1] ++ row_p6 :: [row_p3]) =
     match_single plain_float sample_query ([row_p1] ++ [row_p3]).
Proof.
  eapply (duplicate_rejection plain_float sample_query "Q1" "P6"
            [row_p1] [row_p3] row_p6).
  - reflexivity.
  - reflexivity.
  - vm_compute. reflexivity.
  - vm_compute. lia.
  - left. vm_compute. reflexivity.
Defined.

(** ** The stable sort *)

Section SortFacts.

Context {A : Type}.
Variable key : A -> float.

Lemma insert_perm x l : Permutation (insert key x l) (x :: l).
Proof.
  induction l as [ | y l IH]; simpl; [reflexivity | ].
  destruct (key x <? key y)%float; [reflexivity | ].
  rewrite IH. apply perm_swap.
Qed.

Lemma sort_from_perm l : forall acc,
  Permutation (fold_left (fun s x => insert key x s) l acc) (acc ++ l).
Proof.
  induction l as [ | x l IH]; intros acc; simpl.
  - now rewrite app_nil_r.
  - rewrite IH, insert_perm. apply Permutation_middle.
Qed.

Lemma sort_perm l : Permutation (sort key l) l.
Proof. apply (sort_from_perm l []). Qed.

Lemma insert_sorted x l :
  number (key x) -> numbers key l ->
  StronglySorted (key_le key) l -> StronglySorted (key_le key) (insert key x l).
Proof.
  intros Hx Hl Hs. induction Hs as [ | y l Hs IH Hy]; simpl.
  - repeat constructor.
  - inversion Hl as [ | ? ? Ny Nl]; subst.
    destruct (key x <? key y)%float eqn:E.
    + apply ltb_rank in E; auto.
      assert (Hxy : key_le key x y).
      { unfold key_le, le3. unfold lt3 in E. congruence. }
      constructor; [constructor; assumption | ].
      constructor; [exact Hxy | ].
      eapply Forall_impl; [ | exact Hy].
      intros z Hz. unfold key_le in *. eapply le3_trans; eassumption.
    + apply ltb_false_rank in E; auto.
      constructor; [now apply IH | ].
      eapply Permutation_Forall; [symmetry; apply insert_perm | ].
      now constructor.
Qed.

Lemma sort_from_sorted l : forall acc,
  numbers key acc -> numbers key l -> StronglySorted (key_le key) acc ->
  StronglySorted (key_le key) (fold_left (fun s x => insert key x s) l acc).
Proof.
  induction l as [ | x l IH]; intros acc Na Nl Hs; simpl; [exact Hs | ].
  inversion Nl; subst. apply IH; auto.
  - eapply Permutation_Forall; [symmetry; apply insert_perm | ].
    now constructor.
  - now apply insert_sorted.
Qed.

Lemma sort_sorted l : numbers key l -> StronglySorted (key_le key) (sort key l).
Proof.
  intros Nl. apply sort_from_sorted; auto; constructor.
Qed.

(** An element goes behind every element of its own rank. *)
Lemma insert_stable r x l :
  number (key x) -> numbers key l -> StronglySorted (key_le key) l ->
  filter (tie key r) (insert key x l) =
  filter (tie key r) l ++ filter (tie key r) [x].
Proof.
  intros Hx Hl Hs. induction Hs as [ | y l Hs IH Hy]; [reflexivity | ].
  inversion Hl as [ | ? ? Ny Nl]; subst.
  cbn [insert]. destruct (key x <? key y)%float eqn:E.
  - apply ltb_rank in E; auto.
    cbn [filter]. destruct (tie key r x) eqn:Tx; [ | now rewrite app_nil_r].
    apply eqb3_iff in Tx.
    assert (Hnone : forall z, In z (y :: l) -> tie key r z = false).
    { intros z Hz. destruct (tie key r z) eqn:Tz; [ | reflexivity].
      apply eqb3_iff in Tz.
      assert (Hyz : le3 (frank (key y)) (frank (key z))).
      { destruct Hz as [<- | Hz].
        - unfold le3. rewrite cmp3_refl. discriminate.
        - rewrite Forall_forall in Hy. now apply Hy. }
      pose proof (lt3_le3_trans _ _ _ E Hyz) as Hlt.
      unfold lt3 in Hlt. rewrite Tx, Tz, cmp3_refl in Hlt. discriminate. }
    assert (Hnil : filter (tie key r) (y :: l) = []).
    { clear - Hnone. induction (y :: l) as [ | z l' IHl]; [reflexivity | ].
      cbn [filter]. rewrite (Hnone z) by now left.
      apply IHl. intros z' Hz'. apply Hnone. now right. }
    cbn [filter] in Hnil. now rewrite Hnil.
  - cbn [filter]. rewrite IH by assumption.
    destruct (tie key r y); reflexivity.
Qed.

Lemma sort_from_stable r l : forall acc,
  numbers key acc -> numbers key l -> StronglySorted (key_le key) acc ->
  filter (tie key r) (fold_left (fun s x => insert key x s) l acc) =
  filter (tie key r) acc ++ filter (tie key r) l.
Proof.
  induction l as [ | x l IH]; intros acc Na Nl Hs; simpl.
  - now rewrite app_nil_r.
  - inversion Nl; subst. rewrite IH; auto.
    + rewrite insert_stable by assumption.
      rewrite <- app_assoc. f_equal. cbn [filter].
      destruct (tie key r x); reflexivity.
    + eapply Permutation_Forall; [symmetry; apply insert_perm | ].
      now constructor.
    + now apply insert_sorted.
Qed.

Lemma sort_stable r l :
  numbers key l -> filter (tie key r) (sort key l) = filter (tie key r) l.
Proof.
  intros Nl. apply (sort_from_stable r l []); auto; constructor.
Qed.

End SortFacts.

Lemma sorted_adjacent {A : Type} (R : A -> A -> Prop) l :
  StronglySorted R l ->
  forall i a b,
    nth_error l i = Some a -> nth_error l (S i) = Some b -> R a b.
Proof.
  induction 1 as [ | x l Hs IH Hx]; intros i a b Ha Hb.
  - destruct i; discriminate.
  - destruct i as [ | i]; simpl in Ha, Hb.
    + inversion Ha; subst. rewrite Forall_forall in Hx. apply Hx.
      destruct l; [discriminate | ]. inversion Hb; now left.
    + eapply IH; eassumption.
Qed.

Lemma nth_error_firstn_some {A : Type} n (l : list A) : forall i a,
  nth_error (firstn n l) i = Some a -> nth_error l i = Some a.
Proof.
  revert l. induction n as [ | n IH]; intros l i a; simpl.
  - destruct i; discriminate.
  - destruct l as [ | x l]; [destruct i; discriminate | ].
    destruct i as [ | i]; simpl; auto.
Qed.

Lemma in_firstn {A : Type} n (l : list A) x : In x (firstn n l) -> In x l.
Proof.
  intros H. rewrite <- (firstn_skipn n l). apply in_or_app. now left.
Qed.

(** ** The ranking *)

Lemma survivors_numbers py_float q qid loci db :
  numbers sort_key (flat_map (survivor py_float q qid loci) db).
Proof.
  apply Forall_forall. intros c Hc.
  apply survivor_in in Hc as [row [_ Hc]].
  apply score_row_some in Hc as [cid [st [_ [_ [Hs [_ [_ ->]]]]]]].
  apply scan_loci_counts in Hs as [_ [_ [_ Hn]]].
  unfold sort_key. simpl. apply number_opp, Hn, number_one.
Qed.

(** On numbers, the order of the sort keys is the descending order of [clr]. *)
Lemma key_le_descending a b :
  number (sort_key a) -> number (sort_key b) ->
  key_le sort_key a b -> (cand_clr b <=? cand_clr a)%float = true.
Proof.
  unfold key_le, sort_key. intros Na Nb H.
  apply number_of_opp in Na, Nb. apply leb_rank; auto.
  rewrite !frank_opp in H. unfold le3 in *. now rewrite cmp3_opp in H.
Qed.

(** The candidates whose [clr] equals [k] are those whose key ties with
    the key of [k]. *)
Lemma clr_tie k c :
  number (sort_key c) -> number k ->
  (cand_clr c =? k)%float = tie sort_key (opp3 (frank k)) c.
Proof.
  intros Nc Nk. apply number_of_opp in Nc.
  unfold tie, sort_key. rewrite frank_opp.
  destruct (eqb3 _ _) eqn:E.
  - apply eqb3_iff, opp3_inj in E. now apply eqb_rank.
  - destruct (cand_clr c =? k)%float eqn:E'; [ | reflexivity].
    apply eqb_rank in E'; auto. rewrite E' in E.
    assert (T : eqb3 (opp3 (frank k)) (opp3 (frank k)) = true)
      by now apply eqb3_iff.
    congruence.
Qed.

Lemma filter_clr_tie k l :
  numbers sort_key l -> number k ->
  filter (fun c => cand_clr c =? k)%float l =
  filter (tie sort_key (opp3 (frank k))) l.
Proof.
  intros Nl Nk. apply filter_ext_in. intros c Hc.
  apply clr_tie; auto. unfold numbers in Nl. rewrite Forall_forall in Nl.
  now apply Nl.
Qed.

Lemma filter_none {A : Type} (f : A -> bool) l :
  (forall x, f x = false) -> filter f l = [].
Proof.
  intros H. induction l as [ | x l IH]; simpl; [reflexivity | ].
  now rewrite H.
Qed.

Example sample_ranking_ids :
  match_single plain_float sample_query sample_db = Ok sample_ranking
  /\ map person_id sample_ranking = ["P1"; "P2"; "P4"; "P3"].
Proof. split; vm_compute; reflexivity. Qed.

Lemma sorted_descending l :
  numbers sort_key l -> StronglySorted (key_le sort_key) l ->
  StronglySorted descending l.
Proof.
  intros Nl Hs. induction Hs as [ | a l Hs IH Ha]; [constructor | ].
  inversion Nl as [ | ? ? Na Nt]; subst.
  constructor; [now apply IH | ].
  unfold numbers in Nt. rewrite Forall_forall in *.
  intros b Hb. apply key_le_descending; auto.
Qed.

(** C6. The ranking is the survivors, sorted by descending [clr] and cut to
    the first 10: it is the 10-prefix of a rearrangement of all the survivors
    in which every entry's [clr] is at least that of every later entry, so
    it has at most 10 entries and each entry's [clr] is at least the next
    one's. *)
Theorem ranking_sorted_and_capped
  (py_float : string -> option float) (q : dict) (db : DataFrame)
  (ranking : list candidate) :
  match_single py_float q db = Ok ranking ->
  exists qid sorted,
    index q "PersonID" = Ok qid
    /\ Permutation sorted (flat_map (survivor py_float q qid (query_loci q)) db)
    /\ StronglySorted descending sorted
    /\ ranking = firstn 10 sorted
    /\ List.length ranking <= 10
    /\ forall i a b,
         nth_error ranking i = Some a -> nth_error ranking (S i) = Some b ->
         (cand_clr b <=? cand_clr a)%float = true.
Proof.
  intros H. apply match_single_ok in H as [qid [Hq ->]].
  set (survivors := flat_map _ db).
  assert (Nl : numbers sort_key survivors) by apply survivors_numbers.
  assert (Ns : numbers sort_key (sort sort_key survivors)).
  { eapply Permutation_Forall; [symmetry; apply sort_perm | exact Nl]. }
  assert (Hd : StronglySorted descending (sort sort_key survivors)).
  { apply sorted_descending; [exact Ns | apply sort_sorted, Nl]. }
  exists qid, (sort sort_key survivors).
  split; [exact Hq | ].
  split; [apply sort_perm | ].
  split; [exact Hd | ].
  split; [reflexivity | ].
  split; [apply firstn_le_length | ].
  intros i a b Ha Hb.
  apply nth_error_firstn_some in Ha, Hb.
  exact (sorted_adjacent descending _ Hd i a b Ha Hb).
Qed.

Lemma ranking_sorted_and_capped_witness :
  exists qid sorted,
    index sample_query "PersonID" = Ok qid
    /\ Permutation sorted
         (flat_map (survivor plain_float sample_query qid
                      (query_loci sample_query)) sample_db)
    /\ StronglySorted descending sorted
    /\ sample_ranking = firstn 10 sorted
    /\ List.length sample_ranking <= 10
    /\ forall i a b,
         nth_error sample_ranking i = Some a ->
         nth_error sample_ranking (S i) = Some b ->
         (cand_clr b <=? cand_clr a)%float = true.
Proof.
  apply (ranking_sorted_and_capped plain_float sample_query sample_db
           sample_ranking).
  vm_compute. reflexivity.
Defined.

(** C10. Ties keep the database order: for every value [k], the entries of
    the ranking whose [clr] equals [k] are, in order, the first survivors of
    that [clr] in the order of the database rows. *)
Theorem ties_keep_database_order
  (py_float : string -> option float) (q : dict) (db : DataFrame)
  (ranking : list candidate) :
  match_single py_float q db = Ok ranking ->
  exists qid,
    index q "PersonID" = Ok qid
    /\ forall k, exists rest,
         filter (fun c => cand_clr c =? k)%float
           (flat_map (survivor py_float q qid (query_loci q)) db)
         = filter (fun c => cand_clr c =? k)%float ranking ++ rest.
Proof.
  intros H. apply match_single_ok in H as [qid [Hq ->]].
  set (survivors := flat_map _ db).
  assert (Nl : numbers sort_key survivors) by apply survivors_numbers.
  exists qid. split; [exact Hq | ]. intros k.
  destruct (number_dec k) as [Nk | Nk].
  - exists (filter (fun c => cand_clr c =? k)%float
              (skipn 10 (sort sort_key survivors))).
    rewrite <- filter_app, firstn_skipn.
    assert (Ns : numbers sort_key (sort sort_key survivors)).
    { eapply Permutation_Forall; [symmetry; apply sort_perm | exact Nl]. }
    rewrite !filter_clr_tie by assumption.
    symmetry. now apply sort_stable.
  - exists []. rewrite !filter_none; auto using eqb_nan.
Qed.

Lemma ties_keep_database_order_witness :
  exists qid,
    index sample_query "PersonID" = Ok qid
    /\ forall k, exists rest,
         filter (fun c => cand_clr c =? k)%float
           (flat_map (survivor plain_float sample_query qid
                        (query_loci sample_query)) sample_db)
         = filter (fun c => cand_clr c =? k)%float sample_ranking ++ rest.
Proof.
  apply (ties_keep_database_order plain_float sample_query sample_db
           sample_ranking).
  vm_compute. reflexivity.
Defined.

(** C8. A row carrying the query's own [PersonID] is skipped before any
    locus is read, so it cannot raise and contributes nothing: the ranking is
    the one the database without that row gives, and no entry of a ranking
    carries the query's identifier. *)
Theorem self_exclusion
  (py_float : string -> option float) (q : dict) (qid : string)
  (pre post : DataFrame) (row : dict) :
  index q "PersonID" = Ok qid ->
  index row "PersonID" = Ok qid ->
  (forall loci, score_row py_float q qid loci row = Ok None)
  /\ match_single py_float q (pre ++ row :: post) =
     match_single py_float q (pre ++ post)
  /\ (forall db ranking c,
        match_single py_float q db = Ok ranking ->
        In c ranking -> person_id c <> qid).
Proof.
  intros Hq Hrow.
  assert (Hnone : forall loci, score_row py_float q qid loci row = Ok None).
  { intros loci. unfold score_row. rewrite Hrow; simpl.
    now rewrite String.eqb_refl. }
  split; [exact Hnone | split].
  - apply match_single_skip. intros qid' Hq'.
    replace qid' with qid by congruence. apply Hnone.
  - intros db ranking c H Hc.
    apply match_single_ok in H as [qid' [Hq' ->]].
    replace qid' with qid in * by congruence.
    apply in_firstn in Hc.
    apply (Permutation_in _ (sort_perm sort_key _)) in Hc.
    apply survivor_in in Hc as [r [_ Hc]].
    apply score_row_some in Hc as [cid [st [_ [Hne [_ [_ [_ ->]]]]]]].
    exact Hne.
Qed.

Lemma self_exclusion_witness :
  (forall loci, score_row plain_float sample_query "Q1" loci row_self = Ok None)
  /\ match_single plain_float sample_query ([row_p1] ++ row_self :: [row_p3]) =
     match_single plain_float sample_query ([row_p1] ++ [row_p3])
  /\ (forall db ranking c,
        match_single plain_float sample_query db = Ok ranking ->
        In c ranking -> person_id c <> "Q1").
Proof.
  apply (self_exclusion plain_float sample_query "Q1" [row_p1] [row_p3]
           row_self); reflexivity.
Defined.

(** C9. A query with no locus besides its identifier does not fail on a
    database whose rows all carry a [PersonID]: every comparison runs over
    the empty locus list and ends in the initial state, with no consistent
    locus, so every candidate is rejected and the ranking is empty. *)
Theorem empty_query_loci
  (py_float : string -> option float) (q : dict) (qid : string)
  (db : DataFrame) :
  index q "PersonID" = Ok qid ->
  query_loci q = [] ->
  Forall (fun row => exists cid, index row "PersonID" = Ok cid) db ->
  (forall row, scan_loci py_float q row (query_loci q) init = Ok init)
  /\ (forall row, In row db ->
        score_row py_float q qid (query_loci q) row = Ok None)
  /\ match_single py_float q db = Ok []
  /\ find_matches py_float db [q] = Ok [(qid, [])].
Proof.
  intros Hq Hloci Hdb. rewrite Hloci.
  assert (Hrow : forall row, In row db -> score_row py_float q qid [] row = Ok None).
  { intros row Hin. rewrite Forall_forall in Hdb.
    destruct (Hdb row Hin) as [cid Hc]. unfold score_row. rewrite Hc; simpl.
    now destruct (String.eqb cid qid). }
  assert (Hscan : forall acc, scan_rows py_float q qid [] db acc = Ok acc).
  { clear Hdb. induction db as [ | row db IH]; intros acc; simpl; [reflexivity | ].
    rewrite Hrow by now left. simpl. apply IH.
    intros r Hr. apply Hrow. now right. }
  assert (Hm : match_single py_float q db = Ok []).
  { unfold match_single. rewrite Hq, Hloci; simpl. now rewrite Hscan. }
  repeat split; auto.
  unfold find_matches; simpl. rewrite Hq; simpl. now rewrite Hm.
Qed.

Lemma empty_query_loci_witness :
  (forall row,
     scan_loci plain_float query_no_loci row (query_loci query_no_loci) init
     = Ok init)
  /\ (forall row, In row sample_db ->
        score_row plain_float query_no_loci "Q9" (query_loci query_no_loci) row
        = Ok None)
  /\ match_single plain_float query_no_loci sample_db = Ok []
  /\ find_matches plain_float sample_db [query_no_loci] = Ok [("Q9", [])].
Proof.
  apply (empty_query_loci plain_float query_no_loci "Q9" sample_db).
  - reflexivity.
  - reflexivity.
  - repeat constructor; eexists; reflexivity.
Defined.

(** X3. Every entry of a ranking is the score of a database row of another
    person whose comparison ran to the end with at most 4 exclusions, at
    least 5 consistent loci and no more than 0.80 of identical loci. *)
Theorem ranking_entries_admissible
  (py_float : string -> option float) (q : dict) (db : DataFrame)
  (ranking : list candidate) (c : candidate) :
  match_single py_float q db = Ok ranking ->
  In c ranking ->
  exists qid row cid st,
    index q "PersonID" = Ok qid
    /\ In row db
    /\ index row "PersonID" = Ok cid /\ cid <> qid
    /\ scan_loci py_float q row (query_loci q) init = Ok st
    /\ exclusions st <= 4 /\ 5 <= consistent st
    /\ same_person st = false
    /\ c = make_candidate cid st.
Proof.
  intros H Hc. apply match_single_ok in H as [qid [Hq ->]].
  apply in_firstn in Hc.
  apply (Permutation_in _ (sort_perm sort_key _)) in Hc.
  apply survivor_in in Hc as [row [Hrow Hc]].
  apply score_row_some in Hc as [cid [st [Hi [Hne [Hs [Hb [Hp ->]]]]]]].
  exists qid, row, cid, st. unfold bad_match in Hb.
  apply orb_false_iff in Hb as [Hx Hk].
  apply Nat.ltb_ge in Hx, Hk. repeat split; auto.
Qed.

Lemma ranking_entries_admissible_witness :
  exists qid row cid st,
    index sample_query "PersonID" = Ok qid
    /\ In row sample_db
    /\ index row "PersonID" = Ok cid /\ cid <> qid
    /\ scan_loci plain_float sample_query row (query_loci sample_query) init
       = Ok st
    /\ exclusions st <= 4 /\ 5 <= consistent st
    /\ same_person st = false
    /\ hd (make_candidate "" init) sample_ranking = make_candidate cid st.
Proof.
  apply (ranking_entries_admissible plain_float sample_query sample_db
           sample_ranking).
  - vm_compute. reflexivity.
  - left. reflexivity.
Defined.

(** ** Exceptions leave the whole scan *)

Lemma compare_locus_raise py_float q row locus :
  both_present q row locus = true ->
  (exists e, locus_alleles py_float q locus = Raise e)
  \/ (exists e, locus_alleles py_float row locus = Raise e) ->
  forall st, exists e, compare_locus py_float q row st locus = Raise e.
Proof.
  unfold both_present, present, locus_alleles, compare_locus.
  intros Hp Hbad st. apply andb_true_iff in Hp as [Hq Hr].
  apply negb_true_iff in Hq, Hr. rewrite Hq, Hr. simpl.
  destruct Hbad as [[e E] | [e E]]; rewrite E; simpl.
  - now exists e.
  - destruct (parse_alleles py_float (strip (get q locus "-"))) as [qa | e'];
      simpl; eauto.
Qed.

Lemma scan_loci_raise py_float q row locus loci :
  In locus loci ->
  (forall st, exists e, compare_locus py_float q row st locus = Raise e) ->
  forall st, exists e, scan_loci py_float q row loci st = Raise e.
Proof.
  intros Hin Hbad. induction loci as [ | l loci IH]; [destruct Hin | ].
  intros st. simpl.
  destruct (compare_locus py_float q row st l) as [st' | e] eqn:E; simpl.
  - destruct Hin as [-> | Hin].
    + destruct (Hbad st) as [e He]. congruence.
    + now apply IH.
  - now exists e.
Qed.

Lemma find_matches_raise py_float db q e pre post : forall acc,
  match_single py_float q db = Raise e ->
  exists e', find_matches_from py_float db (pre ++ q :: post) acc = Raise e'.
Proof.
  induction pre as [ | q0 pre IH]; intros acc H; simpl.
  - destruct (index q "PersonID") as [qid | e0]; simpl; [ | eauto].
    rewrite H. simpl. eauto.
  - destruct (index q0 "PersonID") as [qid | e0]; simpl; [ | eauto].
    destruct (match_single py_float q0 db) as [top | e0]; simpl; eauto.
Qed.

(** C2, as the claim states it, fails on [query_bad]: the comparison with
    [row_p1] raises and the scan stops there, although the scan of the
    remaining row alone returns [P4]; the batch stops as well, before the
    next query. *)
Lemma parse_error_counterexample :
  match_single plain_float query_bad [row_p1; row_p4] = Raise (ValueError "x")
  /\ (exists c,
        match_single plain_float query_bad [row_p4] = Ok [c]
        /\ person_id c = "P4")
  /\ find_matches plain_float [row_p1; row_p4] [query_bad; sample_query]
     = Raise (ValueError "x").
Proof.
  split; [vm_compute; reflexivity | split].
  - eexists. split; [vm_compute; reflexivity | reflexivity].
  - vm_compute. reflexivity.
Qed.

(** C2 (as the code has it). A value that does not parse, on a locus where
    the query and some other person's row are both present, is not confined
    to that comparison: [match_single] raises instead of returning a ranking
    for the database, whatever rows come before or after, and [find_matches],
    which has no handler, raises for the whole batch of queries. *)
Theorem parse_error_aborts
  (py_float : string -> option float) (q : dict) (qid cid locus : string)
  (pre post : DataFrame) (row : dict) :
  index q "PersonID" = Ok qid ->
  index row "PersonID" = Ok cid ->
  cid <> qid ->
  In locus (query_loci q) ->
  both_present q row locus = true ->
  (exists e, locus_alleles py_float q locus = Raise e)
  \/ (exists e, locus_alleles py_float row locus = Raise e) ->
  (exists e, score_row py_float q qid (query_loci q) row = Raise e)
  /\ (exists e, match_single py_float q (pre ++ row :: post) = Raise e)
  /\ (forall before after,
        exists e,
          find_matches py_float (pre ++ row :: post) (before ++ q :: after)
          = Raise e).
Proof.
  intros Hq Hrow Hne Hin Hp Hbad.
  assert (Hs : exists e, score_row py_float q qid (query_loci q) row = Raise e).
  { unfold score_row. rewrite Hrow; simpl.
    apply String.eqb_neq in Hne. rewrite Hne.
    destruct (scan_loci_raise py_float q row locus (query_loci q) Hin
                (compare_locus_raise py_float q row locus Hp Hbad) init)
      as [e He].
    rewrite He. simpl. now exists e. }
  assert (Hm : exists e, match_single py_float q (pre ++ row :: post) = Raise e).
  { destruct Hs as [e He]. unfold match_single. rewrite Hq; simpl.
    destruct (scan_rows_raise py_float q qid (query_loci q) pre row post [] e He)
      as [e' He'].
    rewrite He'. simpl. now exists e'. }
  split; [exact Hs | split; [exact Hm | ]].
  intros before after. destruct Hm as [e He].
  unfold find_matches. eapply find_matches_raise. exact He.
Qed.

Lemma parse_error_aborts_witness :
  (exists e,
     score_row plain_float query_bad "Q1" (query_loci query_bad) row_p1
     = Raise e)
  /\ (exists e,
        match_single plain_float query_bad ([row_p4] ++ row_p1 :: [row_p3])
        = Raise e)
  /\ (forall before after,
        exists e,
          find_matches plain_float ([row_p4] ++ row_p1 :: [row_p3])
            (before ++ query_bad :: after)
          = Raise e).
Proof.
  apply (parse_error_aborts plain_float query_bad "Q1" "P1" "D21S11"
           [row_p4] [row_p3] row_p1).
  - reflexivity.
  - reflexivity.
  - discriminate.
  - vm_compute. tauto.
  - vm_compute. reflexivity.
  - left. eexists. vm_compute. reflexivity.
Defined.

(** * Further properties of [match_single] and [find_matches] *)

(** ** Parsing a genotype *)

Lemma split_no_sep sep s : contains sep s = false -> split sep s = [s].
Proof.
  induction s as [ | c s IH]; simpl; [reflexivity | ].
  intros H. apply orb_false_iff in H as [Hc Hs].
  now rewrite Hc, (IH Hs).
Qed.

(** The test [',' in v] changes nothing: both branches build the set of
    the parts of [v.split(',')]. *)
Lemma parse_alleles_split py_float v :
  parse_alleles py_float v =
    (xs <- map_result (to_float py_float) (split comma v) ;; Ok (set_of xs)).
Proof.
  unfold parse_alleles. destruct (contains comma v) eqn:E; [reflexivity | ].
  rewrite (split_no_sep _ _ E). simpl.
  now destruct (to_float py_float v).
Qed.

Lemma map_result_ok {A B : Type} (f : A -> result B) xs : forall ys,
  map_result f xs = Ok ys -> Forall2 (fun x y => f x = Ok y) xs ys.
Proof.
  induction xs as [ | x xs IH]; simpl; intros ys.
  - intros E; inversion E. constructor.
  - destruct (f x) as [y | e] eqn:Ex; simpl; [ | discriminate].
    destruct (map_result f xs) as [ys' | e]; simpl; [ | discriminate].
    intros E; inversion E; subst. constructor; auto.
Qed.

Lemma map_result_raise {A B : Type} (f : A -> result B) xs e :
  map_result f xs = Raise e -> exists x, In x xs /\ f x = Raise e.
Proof.
  induction xs as [ | x xs IH]; simpl; [discriminate | ].
  destruct (f x) as [y | e'] eqn:Ex; simpl.
  - destruct (map_result f xs) as [ys | e']; simpl; [discriminate | ].
    intros E; inversion E; subst.
    destruct (IH eq_refl) as [x' [Hin Hx']]. exists x'. auto.
  - intros E; inversion E; subst. exists x. auto.
Qed.

Lemma mem_set_add a s x :
  mem a s = true -> mem a (set_add s x) = true.
Proof.
  unfold set_add. destruct (mem x s); [trivial | ].
  unfold mem. rewrite existsb_app. intros ->. reflexivity.
Qed.

Lemma mem_set_add_new s x :
  (x =? x)%float = true -> mem x (set_add s x) = true.
Proof.
  unfold set_add. intros H. destruct (mem x s) eqn:E; [exact E | ].
  unfold mem. rewrite existsb_app. simpl. rewrite H.
  now rewrite orb_true_r.
Qed.

Lemma in_set_add a s x : In a (set_add s x) -> In a s \/ a = x.
Proof.
  unfold set_add. destruct (mem x s); [now left | ].
  intros H. apply in_app_or in H as [H | [H | []]]; auto.
Qed.

Lemma length_set_add s x :
  List.length s <= List.length (set_add s x) <= S (List.length s).
Proof.
  unfold set_add. destruct (mem x s); [lia | ].
  rewrite length_app. simpl. lia.
Qed.

Lemma fold_set_add xs : forall acc,
  (forall a, In a (fold_left set_add xs acc) -> In a acc \/ In a xs)
  /\ (forall a, mem a acc = true -> mem a (fold_left set_add xs acc) = true)
  /\ (forall x, In x xs -> (x =? x)%float = true ->
        mem x (fold_left set_add xs acc) = true)
  /\ List.length acc <= List.length (fold_left set_add xs acc)
     <= List.length acc + List.length xs
  /\ (xs <> [] -> fold_left set_add xs acc <> []).
Proof.
  induction xs as [ | x xs IH]; intros acc; simpl.
  - split; [auto | split; [auto | split; [intros x [] | split; [lia | ]]]].
    intros H; now destruct H.
  - destruct (IH (set_add acc x)) as [H1 [H2 [H3 [H4 H5]]]].
    pose proof (length_set_add acc x) as HL.
    split; [ | split; [ | split; [ | split; [lia | ]]]].
    + intros a Ha. apply H1 in Ha as [Ha | Ha]; auto.
      apply in_set_add in Ha as [Ha | ->]; auto.
    + intros a Ha. now apply H2, mem_set_add.
    + intros y [<- | Hy] Hr; [now apply H2, mem_set_add_new | now apply H3].
    + intros _ E.
      assert (K : List.length (fold_left set_add xs (set_add acc x)) = 0)
        by now rewrite E.
      unfold set_add in HL, K, H4.
      destruct (mem x acc) eqn:Em.
      * destruct acc; [discriminate | simpl in *; lia].
      * rewrite length_app in *. simpl in *. lia.
Qed.

(** X4. A raw value parses to the set of the values of its comma-separated
    parts: the set is not empty, holds no value twice and no more values
    than there are parts, each member is the value of a part and each part's
    value (other than a NaN) is a member.  It raises as soon as one part is
    not a number, with that part in the [ValueError]. *)
Theorem parse_alleles_spec (py_float : string -> option float) (v : string) :
  match parse_alleles py_float v with
  | Ok s =>
      s <> [] /\ distinct s
      /\ List.length s <= List.length (split comma v)
      /\ (forall a, In a s ->
            exists part, In part (split comma v) /\ py_float part = Some a)
      /\ (forall part, In part (split comma v) ->
            exists a, py_float part = Some a
                      /\ ((a =? a)%float = true -> mem a s = true))
  | Raise e =>
      exists part,
        In part (split comma v) /\ py_float part = None
        /\ e = ValueError part
  end.
Proof.
  rewrite parse_alleles_split.
  destruct (map_result (to_float py_float) (split comma v)) as [xs | e] eqn:E;
    simpl.
  - apply map_result_ok in E.
    destruct (fold_set_add xs []) as [H1 [_ [H3 [H4 H5]]]].
    fold (set_of xs) in H1, H3, H4, H5.
    split; [ | split; [apply set_of_distinct | split; [ | split]]].
    + apply H5. intros ->. inversion E as [Hs | ]. symmetry in Hs.
      destruct v; simpl in Hs; [discriminate | ].
      destruct (Ascii.eqb a comma); [discriminate | ].
      destruct (split comma v); discriminate.
    + rewrite (Forall2_length E). simpl in H4. lia.
    + intros a Ha. apply H1 in Ha as [[] | Ha].
      clear - E Ha. induction E as [ | p x ps xs Hp E IH]; [destruct Ha | ].
      unfold to_float in Hp. destruct (py_float p) as [y | ] eqn:Ey;
        [ | discriminate].
      inversion Hp; subst. destruct Ha as [<- | Ha].
      * exists p. split; [now left | exact Ey].
      * destruct (IH Ha) as [part [Hin Hpart]]. exists part. split; auto.
        now right.
    + intros part Hpart.
      assert (G : exists a, py_float part = Some a /\ In a xs).
      { clear - E Hpart. induction E as [ | p x ps xs Hp E IH];
          [destruct Hpart | ].
        unfold to_float in Hp. destruct (py_float p) as [y | ] eqn:Ey;
          [ | discriminate].
        inversion Hp; subst. destruct Hpart as [<- | Hpart].
        - exists x. split; [exact Ey | now left].
        - destruct (IH Hpart) as [a [Ha Hin]]. exists a. split; auto.
          now right. }
      destruct G as [a [Ha Hin]]. exists a. split; [exact Ha | ].
      intros Hr. now apply H3.
  - apply map_result_raise in E as [part [Hin Hp]]. exists part.
    unfold to_float in Hp. destruct (py_float part); [discriminate | ].
    inversion Hp. auto.
Qed.

(** ** The order in which alleles are written *)

Lemma bool_ext (b1 b2 : bool) : (b1 = true <-> b2 = true) -> b1 = b2.
Proof.
  destruct b1, b2; intros [H1 H2]; auto. symmetry. now apply H1.
Qed.

Lemma shares_perm q q' c c' :
  Permutation q q' -> Permutation c c' -> shares q c -> shares q' c'.
Proof.
  intros Pq Pc [a [b [Ha [Hb E]]]]. exists a, b.
  eauto using Permutation_in.
Qed.

Lemma near_perm q q' c c' :
  Permutation q q' -> Permutation c c' -> near q c -> near q' c'.
Proof.
  intros Pq Pc [a [b [Ha [Hb E]]]]. exists a, b.
  eauto using Permutation_in.
Qed.

Lemma set_eqb_iff q c :
  set_eqb q c = true <->
  List.length q = List.length c /\ forall a, In a q -> mem a c = true.
Proof.
  unfold set_eqb. now rewrite andb_true_iff, Nat.eqb_eq, forallb_forall.
Qed.

Lemma mem_perm a c c' : Permutation c c' -> mem a c = true -> mem a c' = true.
Proof.
  intros P. rewrite !mem_iff. intros [y [Hy E]]. exists y.
  eauto using Permutation_in.
Qed.

Lemma set_eqb_perm q q' c c' :
  Permutation q q' -> Permutation c c' -> set_eqb q c = set_eqb q' c'.
Proof.
  intros Pq Pc. apply bool_ext. rewrite !set_eqb_iff.
  rewrite (Permutation_length Pq), (Permutation_length Pc).
  split; intros [HL H]; split; auto; intros a Ha.
  - apply (mem_perm _ _ _ Pc), H.
    eapply Permutation_in; [symmetry; exact Pq | exact Ha].
  - apply (mem_perm _ _ _ (Permutation_sym Pc)), H.
    eapply Permutation_in; eassumption.
Qed.

(** X5. The comparison of a locus does not depend on the order in which the
    alleles of either side are listed: "9,10" against "12,10" is scored as
    "10,9" against "10,12". *)
Theorem allele_order_irrelevant
  (st : counters) (q q' c c' : list float) :
  Permutation q q' -> Permutation c c' ->
  compare_alleles st q c = compare_alleles st q' c'.
Proof.
  intros Pq Pc. unfold compare_alleles.
  assert (Es : truthy (inter q c) = truthy (inter q' c')).
  { apply bool_ext. rewrite !shares_iff.
    split; apply shares_perm; auto using Permutation_sym. }
  assert (En : any_mutation q c = any_mutation q' c').
  { apply bool_ext. rewrite !near_iff.
    split; apply near_perm; auto using Permutation_sym. }
  now rewrite Es, En, (set_eqb_perm _ _ _ _ Pq Pc),
    (Permutation_length Pq), (Permutation_length Pc).
Qed.

Lemma allele_order_irrelevant_witness :
  compare_alleles init [9; 10]%float [12; 10]%float =
  compare_alleles init [10; 9]%float [10; 12]%float.
Proof.
  apply (allele_order_irrelevant init [9; 10]%float [10; 9]%float
           [12; 10]%float [10; 12]%float); apply perm_swap.
Defined.

(** ** How the counters relate *)

Lemma set_eqb_shares q c :
  q <> [] -> set_eqb q c = true -> truthy (inter q c) = true.
Proof.
  intros Hq H. apply set_eqb_iff in H as [_ H].
  destruct q as [ | a q]; [congruence | ].
  unfold inter. simpl. now rewrite (H a (or_introl eq_refl)).
Qed.

Lemma parse_alleles_nonempty py_float v s :
  parse_alleles py_float v = Ok s -> s <> [].
Proof.
  rewrite parse_alleles_split.
  destruct (map_result _ _) as [xs | e] eqn:E; simpl; [ | discriminate].
  intros R; inversion R; subst.
  apply (fold_set_add xs []). intros ->.
  apply map_result_ok in E. inversion E as [Hs | ]. symmetry in Hs.
  destruct v; simpl in Hs; [discriminate | ].
  destruct (Ascii.eqb a comma); [discriminate | ].
  destruct (split comma v); discriminate.
Qed.

Lemma scan_loci_order py_float q row loci : forall st st',
  scan_loci py_float q row loci st = Ok st' ->
  identity_matches st <= consistent st ->
  identity_matches st' <= consistent st'.
Proof.
  induction loci as [ | locus rest IH]; intros st st'; simpl.
  - intros E; inversion E; subst; auto.
  - destruct (compare_locus py_float q row st locus) as [st1 | e] eqn:E1;
      simpl; [ | discriminate].
    intros E H. apply (IH _ _ E). clear E IH. revert E1.
    unfold compare_locus.
    destruct (_ || _)%bool; [intros E; inversion E; subst; simpl; exact H | ].
    destruct (parse_alleles py_float (strip (get q locus "-")))
      as [qa | e] eqn:Eq; simpl; [ | discriminate].
    destruct (parse_alleles py_float (strip (get row locus "-")))
      as [ca | e] eqn:Ec; simpl; [ | discriminate].
    intros E; inversion E; subst; clear E.
    apply parse_alleles_nonempty in Eq.
    pose proof (set_eqb_shares qa ca Eq) as Hs.
    unfold compare_alleles.
    destruct (set_eqb qa ca).
    + rewrite (Hs eq_refl). simpl. lia.
    + destruct (truthy _);
        [ | destruct (any_mutation _ _); [ | destruct (_ && _)%bool ]];
        simpl; lia.
Qed.

(** X6. When a comparison runs to the end, every locus with equal allele
    sets was also counted as consistent, every consistent locus was compared
    and every compared locus is a query locus:
    [identity_matches <= consistent <= compared <= len(loci)]. *)
Theorem counters_ordered
  (py_float : string -> option float) (q row : dict) (loci : list string)
  (st : counters) :
  scan_loci py_float q row loci init = Ok st ->
  identity_matches st <= consistent st
  /\ consistent st <= compared st
  /\ compared st <= List.length loci.
Proof.
  intros H.
  pose proof (scan_loci_order _ _ _ _ _ _ H (Nat.le_refl 0)) as H1.
  pose proof (scan_loci_outcomes _ _ _ _ _ _ H) as [Hc [Hm [Hi Hx]]].
  pose proof (scan_loci_counts _ _ _ _ _ _ H) as [Ht [Hp _]].
  unfold classified in Ht. simpl in *.
  split; [exact H1 | split].
  - unfold count_missing in Hi.
    assert (K : List.length (filter (both_present q row) loci)
                + List.length
                    (filter (fun l => negb (both_present q row l)) loci)
                = List.length loci).
    { clear. induction loci as [ | l loci IH]; simpl; [reflexivity | ].
      destruct (both_present q row l); simpl; lia. }
    lia.
  - rewrite Hp. clear. induction loci as [ | l loci IH]; simpl; [lia | ].
    destruct (both_present q row l); simpl; lia.
Qed.

Lemma counters_ordered_witness :
  exists st,
    scan_loci plain_float sample_query row_p6 (query_loci sample_query) init
      = Ok st
    /\ identity_matches st <= consistent st
    /\ consistent st <= compared st
    /\ compared st <= List.length (query_loci sample_query).
Proof.
  eexists. split; [vm_compute; reflexivity | ].
  apply (counters_ordered plain_float sample_query row_p6
           (query_loci sample_query)).
  vm_compute. reflexivity.
Defined.

(** ** When [match_single] returns and what it raises *)

Lemma compare_locus_ok_iff py_float q row st locus :
  (exists st', compare_locus py_float q row st locus = Ok st')
  <-> locus_parses py_float q row locus.
Proof.
  unfold compare_locus, locus_parses, both_present, present, locus_alleles.
  destruct (is_missing (strip (get q locus "-")));
    destruct (is_missing (strip (get row locus "-"))); simpl;
    try (split; [discriminate | eauto]).
  destruct (parse_alleles py_float (strip (get q locus "-"))) as [qa | e];
    simpl.
  - destruct (parse_alleles py_float (strip (get row locus "-"))) as [ca | e];
      simpl.
    + split; eauto.
    + split; [intros [st' E]; discriminate | ].
      intros H. destruct (H eq_refl) as [_ [b Hb]]. discriminate.
  - split; [intros [st' E]; discriminate | ].
    intros H. destruct (H eq_refl) as [[a Ha] _]. discriminate.
Qed.

Lemma scan_loci_ok_iff py_float q row loci : forall st,
  (exists st', scan_loci py_float q row loci st = Ok st')
  <-> forall locus, In locus loci -> locus_parses py_float q row locus.
Proof.
  induction loci as [ | l loci IH]; intros st; simpl.
  - split; [intros _ locus [] | eauto].
  - split.
    + intros [st' E].
      destruct (compare_locus py_float q row st l) as [st1 | e] eqn:E1;
        simpl in E; [ | discriminate].
      intros locus [<- | Hin].
      * apply (compare_locus_ok_iff py_float q row st l). eauto.
      * apply (IH st1); eauto.
    + intros H.
      destruct (proj2 (compare_locus_ok_iff py_float q row st l)
                  (H l (or_introl eq_refl))) as [st1 E1].
      rewrite E1. simpl. apply IH. auto.
Qed.

Lemma score_row_ok_iff py_float q qid loci row :
  (exists o, score_row py_float q qid loci row = Ok o)
  <-> comparable py_float q qid loci row.
Proof.
  unfold score_row, comparable.
  destruct (index row "PersonID") as [cid | e]; simpl.
  - destruct (String.eqb_spec cid qid) as [-> | Hne].
    + split; [ | eauto]. intros _. exists qid. split; [reflexivity | ].
      intros H. congruence.
    + split.
      * intros [o E]. exists cid. split; [reflexivity | ]. intros _.
        apply (scan_loci_ok_iff py_float q row loci init).
        destruct (scan_loci py_float q row loci init) as [st | e];
          simpl in E; [eauto | discriminate].
      * intros [cid' [Hc H]]. inversion Hc; subst.
        destruct (proj2 (scan_loci_ok_iff py_float q row loci init) (H Hne))
          as [st Es].
        rewrite Es. simpl.
        destruct (bad_match st); [eauto | ].
        destruct (same_person st); eauto.
  - split; [intros [o E]; discriminate | ].
    intros [cid [Hc _]]. discriminate.
Qed.

Lemma scan_rows_ok_iff py_float q qid loci rows : forall acc,
  (exists out, scan_rows py_float q qid loci rows acc = Ok out)
  <-> forall row, In row rows -> comparable py_float q qid loci row.
Proof.
  induction rows as [ | r rows IH]; intros acc; simpl.
  - split; [intros _ row [] | eauto].
  - split.
    + intros [out E].
      destruct (score_row py_float q qid loci r) as [o | e] eqn:Er;
        simpl in E; [ | discriminate].
      intros row [<- | Hin].
      * apply score_row_ok_iff. eauto.
      * eapply IH; eauto.
    + intros H.
      destruct (proj2 (score_row_ok_iff py_float q qid loci r)
                  (H r (or_introl eq_refl))) as [o Er].
      rewrite Er. simpl. apply IH. auto.
Qed.

Lemma match_single_ok_iff py_float q db :
  (exists ranking, match_single py_float q db = Ok ranking)
  <-> exists qid,
        index q "PersonID" = Ok qid
        /\ forall row, In row db ->
             comparable py_float q qid (query_loci q) row.
Proof.
  unfold match_single.
  destruct (index q "PersonID") as [qid | e]; simpl.
  - split.
    + intros [ranking E]. exists qid. split; [reflexivity | ].
      apply (scan_rows_ok_iff py_float q qid (query_loci q) db []).
      destruct (scan_rows _ _ _ _ _ _) as [out | e]; simpl in E;
        [eauto | discriminate].
    + intros [qid' [Hq H]]. inversion Hq; subst.
      destruct (proj2 (scan_rows_ok_iff py_float q qid' (query_loci q) db [])
                  H) as [out Eo].
      rewrite Eo. simpl. eauto.
  - split; [intros [r E]; discriminate | intros [qid [E _]]; discriminate].
Qed.

(** X7. [match_single] returns a ranking exactly when the query has a
    [PersonID], every database row has one, and for every row of another
    person both raw values are numbers on every query locus where both are
    present.  Values of the query's own rows, and values facing a missing
    value, are never parsed. *)
Theorem match_single_returns_iff
  (py_float : string -> option float) (q : dict) (db : DataFrame) :
  (exists ranking, match_single py_float q db = Ok ranking)
  <-> exists qid,
        index q "PersonID" = Ok qid
        /\ forall row, In row db ->
             comparable py_float q qid (query_loci q) row.
Proof. apply match_single_ok_iff. Qed.

Lemma parse_alleles_raise py_float v e :
  parse_alleles py_float v = Raise e ->
  exists s, e = ValueError s /\ py_float s = None.
Proof.
  rewrite parse_alleles_split.
  destruct (map_result _ _) as [xs | e'] eqn:E; simpl; [discriminate | ].
  intros R; inversion R; subst.
  apply map_result_raise in E as [part [_ Hp]]. exists part.
  unfold to_float in Hp. destruct (py_float part); [discriminate | ].
  inversion Hp. auto.
Qed.

Lemma scan_loci_raise_kind py_float q row loci : forall st e,
  scan_loci py_float q row loci st = Raise e ->
  exists s, e = ValueError s /\ py_float s = None.
Proof.
  induction loci as [ | l loci IH]; intros st e; simpl; [discriminate | ].
  destruct (compare_locus py_float q row st l) as [st1 | e1] eqn:E1; simpl.
  - apply IH.
  - intros R; inversion R; subst; clear R. revert E1. unfold compare_locus.
    destruct (_ || _)%bool; [discriminate | ].
    destruct (parse_alleles py_float (strip (get q l "-"))) as [qa | e1] eqn:Eq;
      simpl.
    + destruct (parse_alleles py_float (strip (get row l "-")))
        as [ca | e1] eqn:Ec; simpl; [discriminate | ].
      intros R; inversion R; subst. eapply parse_alleles_raise; eassumption.
    + intros R; inversion R; subst. eapply parse_alleles_raise; eassumption.
Qed.

Lemma index_raise d k e :
  index d k = Raise e -> e = KeyError k /\ lookup d k = None.
Proof.
  unfold index. destruct (lookup d k); [discriminate | ].
  intros R; inversion R. auto.
Qed.

(** X8. [match_single] raises nothing but a [KeyError] for ['PersonID'],
    when the query or a database row has no such column, and the
    [ValueError] of [float] on a text that is not a number. *)
Theorem match_single_raises_only
  (py_float : string -> option float) (q : dict) (db : DataFrame) (e : exn) :
  match_single py_float q db = Raise e ->
  (e = KeyError "PersonID"
   /\ (lookup q "PersonID" = None
       \/ exists row, In row db /\ lookup row "PersonID" = None))
  \/ (exists s, e = ValueError s /\ py_float s = None).
Proof.
  unfold match_single.
  destruct (index q "PersonID") as [qid | e0] eqn:Eq; simpl.
  - destruct (scan_rows _ _ _ _ _ _) as [out | e0] eqn:Es; simpl;
      [discriminate | ].
    intros R; inversion R; subst; clear R.
    revert Es. generalize (@nil candidate).
    induction db as [ | row db IH]; intros acc; simpl; [discriminate | ].
    destruct (score_row py_float q qid (query_loci q) row) as [o | e1] eqn:Er;
      simpl.
    + intros Es. destruct (IH _ Es) as [[He [Hq | [r [Hin Hr]]]] | Hv]; eauto 8.
    + intros R; inversion R; subst; clear R. revert Er. unfold score_row.
      destruct (index row "PersonID") as [cid | e1] eqn:Ei; simpl.
      * destruct (String.eqb cid qid); [discriminate | ].
        destruct (scan_loci _ _ _ _ _) as [st | e1] eqn:El; simpl.
        -- destruct (bad_match st); [discriminate | ].
           destruct (same_person st); discriminate.
        -- intros R; inversion R; subst. right.
           eapply scan_loci_raise_kind; eassumption.
      * intros R; inversion R; subst.
        apply index_raise in Ei as [-> Hl]. left. split; [reflexivity | ].
        right. exists row. split; [now left | exact Hl].
  - intros R; inversion R; subst.
    apply index_raise in Eq as [-> Hl]. left. auto.
Qed.

Lemma match_single_raises_only_witness :
  (ValueError "x" = KeyError "PersonID"
   /\ (lookup query_bad "PersonID" = None
       \/ exists row, In row [row_p1] /\ lookup row "PersonID" = None))
  \/ (exists s, ValueError "x" = ValueError s /\ plain_float s = None).
Proof.
  apply (match_single_raises_only plain_float query_bad [row_p1]).
  vm_compute. reflexivity.
Defined.

(** ** The records of a ranking *)

Lemma ranked_row py_float q db ranking c :
  match_single py_float q db = Ok ranking ->
  In c ranking ->
  exists qid row cid st,
    index q "PersonID" = Ok qid
    /\ In row db
    /\ index row "PersonID" = Ok cid /\ cid <> qid
    /\ scan_loci py_float q row (query_loci q) init = Ok st
    /\ bad_match st = false
    /\ same_person st = false
    /\ c = make_candidate cid st.
Proof.
  intros H Hc. apply match_single_ok in H as [qid [Hq ->]].
  apply in_firstn in Hc.
  apply (Permutation_in _ (sort_perm sort_key _)) in Hc.
  apply survivor_in in Hc as [row [Hrow Hc]].
  apply score_row_some in Hc as [cid [st [Hi [Hne [Hs [Hb [Hp ->]]]]]]].
  exists qid, row, cid, st. repeat split; auto.
Qed.

(** X9. Every record of a ranking reports at least 5 consistent loci, and
    its three reported counts add up to the number of query loci less the
    at most 4 exclusions, which are not reported. *)
Theorem returned_counts
  (py_float : string -> option float) (q : dict) (db : DataFrame)
  (ranking : list candidate) (c : candidate) :
  match_single py_float q db = Ok ranking ->
  In c ranking ->
  5 <= consistent_loci c
  /\ consistent_loci c + mutated_loci c + inconclusive_loci c
     <= List.length (query_loci q)
  /\ List.length (query_loci q)
     <= consistent_loci c + mutated_loci c + inconclusive_loci c + 4.
Proof.
  intros H Hc.
  destruct (ranked_row _ _ _ _ _ H Hc)
    as (qid & row & cid & st & _ & _ & _ & _ & Hs & Hb & _ & ->).
  apply scan_loci_counts in Hs as [Ht _]. unfold classified in Ht.
  unfold bad_match in Hb. apply orb_false_iff in Hb as [Hx Hk].
  apply Nat.ltb_ge in Hx, Hk. simpl in *. lia.
Qed.

Lemma returned_counts_witness :
  5 <= consistent_loci (hd (make_candidate "" init) sample_ranking)
  /\ consistent_loci (hd (make_candidate "" init) sample_ranking)
     + mutated_loci (hd (make_candidate "" init) sample_ranking)
     + inconclusive_loci (hd (make_candidate "" init) sample_ranking)
     <= List.length (query_loci sample_query)
  /\ List.length (query_loci sample_query)
     <= consistent_loci (hd (make_candidate "" init) sample_ranking)
        + mutated_loci (hd (make_candidate "" init) sample_ranking)
        + inconclusive_loci (hd (make_candidate "" init) sample_ranking) + 4.
Proof.
  apply (returned_counts plain_float sample_query sample_db sample_ranking).
  - vm_compute. reflexivity.
  - left. reflexivity.
Defined.

(** X10. A query with fewer than 5 loci never gets a candidate: whenever
    [match_single] returns, the ranking is empty, however well the loci
    match. *)
Theorem few_loci_empty_ranking
  (py_float : string -> option float) (q : dict) (db : DataFrame)
  (ranking : list candidate) :
  List.length (query_loci q) < 5 ->
  match_single py_float q db = Ok ranking ->
  ranking = [].
Proof.
  intros Hn H. destruct ranking as [ | c ranking]; [reflexivity | ].
  destruct (ranked_row _ _ _ _ c H (or_introl eq_refl))
    as (qid & row & cid & st & _ & _ & _ & _ & Hs & Hb & _).
  apply scan_loci_counts in Hs as [Ht _]. unfold classified in Ht.
  unfold bad_match in Hb. apply orb_false_iff in Hb as [_ Hk].
  apply Nat.ltb_ge in Hk. simpl in *. lia.
Qed.

Lemma few_loci_empty_ranking_witness :
  match_single plain_float query_one_locus sample_db = Ok [].
Proof.
  assert (H : exists r, match_single plain_float query_one_locus sample_db
                        = Ok r).
  { eexists. vm_compute. reflexivity. }
  destruct H as [r Hr]. rewrite Hr. f_equal.
  apply (few_loci_empty_ranking plain_float query_one_locus sample_db r).
  - vm_compute. lia.
  - exact Hr.
Defined.

(** ** The ten best *)

Lemma sorted_app_cross {A : Type} (R : A -> A -> Prop) l1 : forall l2,
  StronglySorted R (l1 ++ l2) ->
  forall a b, In a l1 -> In b l2 -> R a b.
Proof.
  induction l1 as [ | x l1 IH]; intros l2 Hs a b Ha Hb; [destruct Ha | ].
  simpl in Hs. apply StronglySorted_inv in Hs as [Hs Hx].
  destruct Ha as [<- | Ha].
  - rewrite Forall_forall in Hx. apply Hx, in_or_app. now right.
  - eapply IH; eassumption.
Qed.

(** X11. The ranking is the best of the survivors: together with the
    survivors left out it is a rearrangement of all survivors, it holds all
    of them when there are at most 10 and exactly 10 otherwise, and no
    survivor left out has a greater [clr] than a ranked one. *)
Theorem top_ten_selection
  (py_float : string -> option float) (q : dict) (db : DataFrame)
  (ranking : list candidate) :
  match_single py_float q db = Ok ranking ->
  exists qid rest,
    index q "PersonID" = Ok qid
    /\ Permutation (ranking ++ rest)
         (flat_map (survivor py_float q qid (query_loci q)) db)
    /\ List.length ranking =
         Nat.min 10
           (List.length (flat_map (survivor py_float q qid (query_loci q)) db))
    /\ forall a b, In a ranking -> In b rest ->
         (cand_clr b <=? cand_clr a)%float = true.
Proof.
  intros H. apply match_single_ok in H as [qid [Hq ->]].
  set (survivors := flat_map _ db).
  assert (Nl : numbers sort_key survivors) by apply survivors_numbers.
  assert (Ns : numbers sort_key (sort sort_key survivors)).
  { eapply Permutation_Forall; [symmetry; apply sort_perm | exact Nl]. }
  exists qid, (skipn 10 (sort sort_key survivors)).
  split; [exact Hq | split; [ | split]].
  - rewrite firstn_skipn. apply sort_perm.
  - rewrite length_firstn.
    now rewrite (Permutation_length (sort_perm sort_key survivors)).
  - intros a b Ha Hb.
    unfold numbers in Ns. rewrite Forall_forall in Ns.
    apply key_le_descending.
    + apply Ns. eapply in_firstn; eassumption.
    + apply Ns. rewrite <- (firstn_skipn 10 (sort sort_key survivors)).
      apply in_or_app. now right.
    + eapply (sorted_app_cross (key_le sort_key)); [ | exact Ha | exact Hb].
      rewrite firstn_skipn. apply sort_sorted, Nl.
Qed.

Lemma top_ten_selection_witness :
  exists qid rest,
    index sample_query "PersonID" = Ok qid
    /\ Permutation (sample_ranking ++ rest)
         (flat_map (survivor plain_float sample_query qid
                      (query_loci sample_query)) sample_db)
    /\ List.length sample_ranking =
         Nat.min 10
           (List.length
              (flat_map (survivor plain_float sample_query qid
                           (query_loci sample_query)) sample_db))
    /\ forall a b, In a sample_ranking -> In b rest ->
         (cand_clr b <=? cand_clr a)%float = true.
Proof.
  apply (top_ten_selection plain_float sample_query sample_db sample_ranking).
  vm_compute. reflexivity.
Defined.

(** ** The batch *)

Lemma match_single_capped py_float q db top :
  match_single py_float q db = Ok top -> firstn 10 top = top.
Proof.
  intros H. apply match_single_ok in H as [qid [_ ->]].
  now rewrite firstn_firstn.
Qed.

Lemma find_matches_from_iff py_float db qs : forall acc rs,
  find_matches_from py_float db qs acc = Ok rs <->
  exists rs',
    rs = acc ++ rs'
    /\ Forall2 (fun q r => index q "PersonID" = Ok (fst r)
                           /\ match_single py_float q db = Ok (snd r))
         qs rs'.
Proof.
  induction qs as [ | q qs IH]; intros acc rs; cbn [find_matches_from].
  - split.
    + intros E; inversion E; subst. exists []. rewrite app_nil_r.
      split; [reflexivity | constructor].
    + intros [rs' [-> F]]. inversion F. now rewrite app_nil_r.
  - destruct (index q "PersonID") as [qid | e] eqn:Eq; cbn [bind].
    + destruct (match_single py_float q db) as [top | e] eqn:Em; cbn [bind].
      * rewrite (match_single_capped _ _ _ _ Em), IH. split.
        -- intros [rs' [-> F]]. exists ((qid, top) :: rs').
           rewrite <- app_assoc. split; [reflexivity | ].
           constructor; auto.
        -- intros [rs' [-> F]]. inversion F as [ | ? r ? rs2 [Hi Hm] F']; subst.
           exists rs2. rewrite <- app_assoc. simpl.
           destruct r as [qid' top']. simpl in Hi, Hm.
           rewrite Eq in Hi. rewrite Em in Hm.
           inversion Hi; inversion Hm; subst. auto.
      * split; [intros E; discriminate E | ].
        intros [rs' [_ F]]. inversion F as [ | ? r ? rs2 [_ Hm] F']; subst.
        rewrite Em in Hm. discriminate.
    + split; [intros E; discriminate E | ].
      intros [rs' [_ F]]. inversion F as [ | ? r ? rs2 [Hi _] F']; subst.
      rewrite Eq in Hi. discriminate.
Qed.

(** X12. [find_matches] returns exactly when every query has a [PersonID]
    and [match_single] returns for it; the result then pairs each query, in
    the order given, with its identifier and the ranking of [match_single]
    unchanged (the second cut to 10 removes nothing), each query being
    matched against the same database whatever the other queries are. *)
Theorem find_matches_per_query
  (py_float : string -> option float) (db queries : DataFrame)
  (results : list (string * list candidate)) :
  find_matches py_float db queries = Ok results <->
  Forall2 (fun q r => index q "PersonID" = Ok (fst r)
                      /\ match_single py_float q db = Ok (snd r))
    queries results.
Proof.
  unfold find_matches. rewrite find_matches_from_iff. simpl. split.
  - intros [rs' [-> F]]. exact F.
  - intros F. exists results. auto.
Qed.

(** ** The order of the database rows *)

Lemma sorted_unique {A : Type} (key : A -> float) l : forall l',
  StronglySorted (key_le key) l -> StronglySorted (key_le key) l' ->
  Permutation l l' ->
  NoDup (map (fun a => frank (key a)) l) ->
  l = l'.
Proof.
  induction l as [ | a t IH]; intros l' Hs Hs' P Hn.
  - apply Permutation_nil in P. now subst.
  - destruct l' as [ | a' t'].
    + symmetry in P. apply Permutation_nil in P. discriminate.
    + apply StronglySorted_inv in Hs as [Hst Ha].
      apply StronglySorted_inv in Hs' as [Hst' Ha'].
      rewrite Forall_forall in Ha, Ha'.
      inversion Hn as [ | ? ? Hnotin Hnt]; subst.
      assert (E : a = a').
      { assert (Hin' : In a' (a :: t))
          by (eapply Permutation_in; [symmetry; exact P | now left]).
        destruct Hin' as [E | Hin']; [exact E | exfalso].
        assert (Hin : In a (a' :: t'))
          by (eapply Permutation_in; [exact P | now left]).
        destruct Hin as [E | Hin].
        { subst. apply Hnotin.
          now apply (in_map (fun x => frank (key x))). }
        pose proof (Ha a' Hin') as L1. pose proof (Ha' a Hin) as L2.
        unfold key_le, le3 in L1, L2.
        rewrite (cmp3_antisym (frank (key a))) in L2.
        apply Hnotin. apply in_map_iff. exists a'. split; [ | exact Hin'].
        symmetry. apply cmp3_eq.
        destruct (cmp3 (frank (key a)) (frank (key a'))); simpl in *;
          congruence. }
      subst a'. f_equal. apply IH; auto.
      eapply Permutation_cons_inv; exact P.
Qed.

Lemma distinct_clr_nodup l :
  numbers sort_key l -> distinct (map cand_clr l) ->
  NoDup (map (fun c => frank (sort_key c)) l).
Proof.
  intros Nl. induction Nl as [ | a t Na Nt IH]; simpl; intros D.
  - constructor.
  - inversion D as [ | ? ? Ha Dt]; subst. constructor; [ | now apply IH].
    intros Hin. apply in_map_iff in Hin as [b [Hb Hin]].
    rewrite Forall_forall in Ha.
    assert (Nb : number (sort_key b))
      by (unfold numbers in Nt; rewrite Forall_forall in Nt; now apply Nt).
    unfold sort_key in Hb, Na, Nb. rewrite !frank_opp in Hb.
    apply opp3_inj in Hb. apply number_of_opp in Na, Nb.
    assert (E : (cand_clr a =? cand_clr b)%float = true)
      by (apply eqb_rank; auto).
    rewrite (Ha (cand_clr b)) in E; [discriminate | now apply in_map].
Qed.

(** X13. When no two survivors have the same [clr], the ranking does not
    depend on the order of the database rows: every rearrangement of a
    database for which [match_single] returns gives the same ranking. *)
Theorem row_order_irrelevant
  (py_float : string -> option float) (q : dict) (qid : string)
  (db db' : DataFrame) (ranking : list candidate) :
  Permutation db db' ->
  index q "PersonID" = Ok qid ->
  distinct
    (map cand_clr (flat_map (survivor py_float q qid (query_loci q)) db)) ->
  match_single py_float q db = Ok ranking ->
  match_single py_float q db' = Ok ranking.
Proof.
  intros P Hq D H.
  assert (Hok : exists r, match_single py_float q db' = Ok r).
  { apply match_single_ok_iff.
    destruct (proj1 (match_single_ok_iff py_float q db)
                (ex_intro _ ranking H)) as [qid' [Hq' Hall]].
    exists qid'. split; [exact Hq' | ]. intros row Hin. apply Hall.
    eapply Permutation_in; [symmetry; exact P | exact Hin]. }
  destruct Hok as [r Hr]. rewrite Hr. f_equal.
  apply match_single_ok in H as [qid1 [Hq1 ->]].
  apply match_single_ok in Hr as [qid2 [Hq2 ->]].
  replace qid1 with qid by congruence. replace qid2 with qid by congruence.
  set (f := survivor py_float q qid (query_loci q)) in *.
  assert (Ps : Permutation (flat_map f db) (flat_map f db'))
    by now apply Permutation_flat_map.
  assert (N1 : numbers sort_key (flat_map f db)) by apply survivors_numbers.
  assert (N2 : numbers sort_key (flat_map f db')) by apply survivors_numbers.
  f_equal. apply (sorted_unique sort_key).
  - now apply sort_sorted.
  - now apply sort_sorted.
  - rewrite !sort_perm. now symmetry.
  - eapply Permutation_NoDup.
    + apply Permutation_map. symmetry. etransitivity; [apply sort_perm | ].
      symmetry. exact Ps.
    + now apply distinct_clr_nodup.
Qed.

Lemma row_order_irrelevant_witness :
  match_single plain_float sample_query [row_p4; row_self; row_p3; row_p1] =
  match_single plain_float sample_query [row_p3; row_p1; row_self; row_p4].
Proof.
  assert (H : exists r,
             match_single plain_float sample_query
               [row_p3; row_p1; row_self; row_p4] = Ok r).
  { eexists. vm_compute. reflexivity. }
  destruct H as [r Hr]. rewrite Hr.
  apply (row_order_irrelevant plain_float sample_query "Q1"
           [row_p3; row_p1; row_self; row_p4]
           [row_p4; row_self; row_p3; row_p1] r).
  - apply Permutation_sym.
    apply (Permutation_cons_app [row_p3; row_p1; row_self] [] row_p4).
    apply (Permutation_cons_app [row_p3; row_p1] [] row_self).
    apply Permutation_refl.
  - reflexivity.
  - vm_compute. repeat constructor.
  - exact Hr.
Defined.

(** ** The sign of [clr] and of [posterior] *)

Lemma binary_round_aux_sign m e l :
  (0 <= m)%Z ->
  sign_clear (binary_round_aux prec emax false m e l) = true.
Proof.
  intros Hm. unfold binary_round_aux.
  pose proof (shr_fexp_nonneg m e l Hm) as H1.
  destruct (shr_fexp prec emax m e l) as [mrs1 e1]; simpl in H1.
  pose proof (shr_fexp_nonneg _ e1 loc_Exact
                (round_nearest_even_nonneg _ (loc_of_shr_record mrs1) H1)) as H2.
  destruct (shr_fexp prec emax _ e1 loc_Exact) as [mrs2 e2]; simpl in H2.
  destruct (shr_m mrs2); try lia; try reflexivity.
  destruct (_ <=? _)%Z; reflexivity.
Qed.

Lemma mul_sign_clear x m :
  sign_clear (Prim2SF x) = true -> positive_finite m = true ->
  sign_clear (Prim2SF (x * m)) = true.
Proof.
  unfold positive_finite. rewrite FloatAxioms.mul_spec. unfold SF64mul.
  destruct (Prim2SF x) as [sx | sx | | sx mx ex],
           (Prim2SF m) as [sm | sm | | [ | ] mm em];
    try discriminate; simpl; intros Hx _;
    apply negb_true_iff in Hx; subst; try reflexivity.
  apply binary_round_aux_sign. lia.
Qed.

Lemma multipliers_positive :
  positive_finite (1.0 / 0.15) = true /\ positive_finite (0.5 / 0.15) = true
  /\ positive_finite (0.002 / 0.15) = true /\ positive_finite 0.5 = true
  /\ positive_finite 0.01 = true.
Proof. vm_compute. repeat split. Qed.

Lemma compare_alleles_sign st q c :
  sign_clear (Prim2SF (clr st)) = true ->
  sign_clear (Prim2SF (clr (compare_alleles st q c))) = true.
Proof.
  intros H. destruct multipliers_positive as [M1 [M2 [M3 [M4 M5]]]].
  unfold compare_alleles.
  destruct (truthy _); [ | destruct (any_mutation _ _); [ | destruct (_ && _)%bool ]];
    simpl; try (apply mul_sign_clear; assumption).
  destruct (_ =? 1)%nat; apply mul_sign_clear; assumption.
Qed.

Lemma scan_loci_sign py_float q row loci : forall st st',
  scan_loci py_float q row loci st = Ok st' ->
  sign_clear (Prim2SF (clr st)) = true ->
  sign_clear (Prim2SF (clr st')) = true.
Proof.
  induction loci as [ | locus rest IH]; intros st st'; simpl.
  - intros E; inversion E; subst; auto.
  - destruct (compare_locus py_float q row st locus) as [st1 | e] eqn:E1;
      simpl; [ | discriminate].
    intros E H. apply (IH _ _ E). clear E IH. revert E1.
    unfold compare_locus.
    destruct (_ || _)%bool; [intros E; inversion E; subst; simpl; exact H | ].
    destruct (parse_alleles py_float (strip (get q locus "-"))) as [qa | e];
      simpl; [ | discriminate].
    destruct (parse_alleles py_float (strip (get row locus "-"))) as [ca | e];
      simpl; [ | discriminate].
    intros E; inversion E; subst. now apply compare_alleles_sign.
Qed.

Lemma zero_spec : Prim2SF 0 = S754_zero false.
Proof. vm_compute. reflexivity. Qed.

Lemma leb_zero_sign_clear x :
  sign_clear (Prim2SF x) = true -> (0 <=? x)%float = true.
Proof.
  rewrite FloatAxioms.leb_spec, zero_spec.
  destruct (Prim2SF x) as [s | s | | s m e]; simpl; try discriminate;
    intros H; apply negb_true_iff in H; subst; reflexivity.
Qed.

Lemma add_one_sign_clear m e :
  sign_clear (SF64add (S754_finite false m e) (Prim2SF 1.0)) = true.
Proof.
  replace (Prim2SF 1.0) with (S754_finite false 4503599627370496 (-52))
    by (vm_compute; reflexivity).
  unfold SF64add, SFadd. cbv zeta.
  set (ez := Z.min e (-52)).
  unfold cond_Zopp.
  set (a := fst (shl_align m e ez)).
  set (b := fst (shl_align 4503599627370496 (-52) ez)).
  change (Zpos a + Zpos b)%Z with (Zpos (a + b)).
  unfold binary_normalize, binary_round.
  destruct (shl_align (a + b) ez _) as [mz ez'].
  apply binary_round_aux_sign. lia.
Qed.

Lemma div_core_nonneg m1 e1 m2 e2 :
  (0 <= fst (fst (SFdiv_core_binary prec emax (Zpos m1) e1 (Zpos m2) e2)))%Z.
Proof.
  unfold SFdiv_core_binary. cbv zeta.
  set (s := (e1 - e2 - _)%Z).
  set (m' := match s with Zpos _ => Z.shiftl (Zpos m1) s | Z0 => Zpos m1
             | Zneg _ => 0%Z end).
  assert (Hm : (0 <= m')%Z).
  { unfold m'. destruct s; try lia. apply Z.shiftl_nonneg. lia. }
  pose proof (Z_div_mod m' (Zpos m2) ltac:(lia)) as H.
  destruct (Z.div_eucl m' (Zpos m2)) as [qq r]. simpl.
  destruct H as [H1 H2]. nia.
Qed.

Lemma div_sign_clear m e y :
  sign_clear y = true ->
  sign_clear (SF64div (S754_finite false m e) y) = true.
Proof.
  unfold SF64div, SFdiv.
  destruct y as [s | s | | s my ey]; simpl; try discriminate;
    intros H; apply negb_true_iff in H; subst; try reflexivity.
  pose proof (div_core_nonneg m e my ey) as Hq.
  destruct (SFdiv_core_binary prec emax (Zpos m) e (Zpos my) ey)
    as [[mz ez] lz]. simpl in Hq.
  now apply binary_round_aux_sign.
Qed.

Lemma eqb_infinity x :
  sign_clear (Prim2SF x) = true ->
  ((x =? infinity)%float = true <-> x = infinity).
Proof.
  intros H. split.
  - rewrite FloatAxioms.eqb_spec.
    replace (Prim2SF infinity) with (S754_infinity false)
      by (vm_compute; reflexivity).
    intros E. apply Prim2SF_inj.
    replace (Prim2SF infinity) with (S754_infinity false)
      by (vm_compute; reflexivity).
    destruct (Prim2SF x) as [s | s | | s m e]; simpl in *; try discriminate.
    destruct s; [discriminate | reflexivity].
  - intros ->. vm_compute. reflexivity.
Qed.

Lemma posterior_sign cid st :
  sign_clear (Prim2SF (clr st)) = true ->
  ((clr st =? infinity)%float = true ->
     is_nan (posterior (make_candidate cid st)) = true)
  /\ ((clr st =? infinity)%float = false ->
        (0 <=? posterior (make_candidate cid st))%float = true).
Proof.
  intros H. split.
  - intros E. apply (eqb_infinity _ H) in E. simpl. rewrite E.
    vm_compute. reflexivity.
  - intros E. apply leb_zero_sign_clear. simpl.
    rewrite FloatAxioms.ltb_spec, zero_spec.
    destruct (Prim2SF (clr st)) as [s | s | | s m e] eqn:Ex; simpl in H;
      try discriminate; apply negb_true_iff in H; subst s.
    + simpl. vm_compute. reflexivity.
    + assert (K : clr st = infinity).
      { apply Prim2SF_inj. rewrite Ex. vm_compute. reflexivity. }
      rewrite K in E. vm_compute in E. discriminate.
    + simpl. rewrite FloatAxioms.div_spec, FloatAxioms.add_spec, Ex.
      apply div_sign_clear. apply add_one_sign_clear.
Qed.

(** X14. The [clr] of a ranked record is never negative and never a NaN
    (it is 0 or infinite only by underflow or overflow of the product).
    Its [posterior] is NaN when [clr] has overflowed to infinity, and
    a number at least 0 otherwise. *)
Theorem score_range
  (py_float : string -> option float) (q : dict) (db : DataFrame)
  (ranking : list candidate) (c : candidate) :
  match_single py_float q db = Ok ranking ->
  In c ranking ->
  (0 <=? cand_clr c)%float = true
  /\ ((cand_clr c =? infinity)%float = true -> is_nan (posterior c) = true)
  /\ ((cand_clr c =? infinity)%float = false ->
        (0 <=? posterior c)%float = true).
Proof.
  intros H Hc.
  destruct (ranked_row _ _ _ _ _ H Hc)
    as (qid & row & cid & st & _ & _ & _ & _ & Hs & _ & _ & ->).
  assert (S1 : sign_clear (Prim2SF (clr st)) = true).
  { apply (scan_loci_sign _ _ _ _ _ _ Hs). vm_compute. reflexivity. }
  split; [now apply leb_zero_sign_clear | ].
  apply (posterior_sign cid st S1).
Qed.

Lemma score_range_witness :
  is_nan (posterior (hd (make_candidate "" init) overflow_ranking)) = true.
Proof.
  apply (score_range plain_float (many_loci_query 380) [many_loci_row 380]
           overflow_ranking (hd (make_candidate "" init) overflow_ranking)).
  - vm_compute. reflexivity.
  - left. reflexivity.
  - vm_compute. reflexivity.
Defined.

(** ** Identifiers in a ranking *)

Lemma survivor_id py_float q qid loci row c :
  In c (survivor py_float q qid loci row) ->
  lookup row "PersonID" = Some (person_id c).
Proof.
  unfold survivor.
  destruct (score_row py_float q qid loci row) as [[c' | ] | e] eqn:E;
    simpl; try contradiction.
  intros [<- | []].
  apply score_row_some in E as (cid & st & Hi & _ & _ & _ & _ & ->).
  unfold index in Hi. destruct (lookup row "PersonID"); [ | discriminate].
  inversion Hi. reflexivity.
Qed.

Lemma survivors_ids_nodup py_float q qid loci db :
  NoDup (map (fun row => lookup row "PersonID") db) ->
  NoDup (map person_id (flat_map (survivor py_float q qid loci) db)).
Proof.
  induction db as [ | row db IH]; simpl; intros Hn; [constructor | ].
  inversion Hn as [ | ? ? Hnotin Hnd]; subst.
  rewrite map_app. apply NoDup_app; [ | now apply IH | ].
  - unfold survivor. destruct (score_row _ _ _ _ _) as [[c | ] | e]; simpl;
      repeat constructor; auto.
  - intros a Ha Hb. apply in_map_iff in Ha as [c [<- Hc]].
    apply survivor_id in Hc.
    apply in_map_iff in Hb as [c' [Hid Hc']].
    apply in_flat_map in Hc' as [row' [Hrow' Hc']].
    apply survivor_id in Hc'. apply Hnotin. rewrite Hc.
    apply in_map_iff. exists row'. split; [congruence | exact Hrow'].
Qed.

(** X15. When no two database rows carry the same [PersonID], no person
    appears twice in a ranking. *)
Theorem ranking_ids_unique
  (py_float : string -> option float) (q : dict) (db : DataFrame)
  (ranking : list candidate) :
  NoDup (map (fun row => lookup row "PersonID") db) ->
  match_single py_float q db = Ok ranking ->
  NoDup (map person_id ranking).
Proof.
  intros Hn H. apply match_single_ok in H as [qid [_ ->]].
  set (survivors := flat_map _ db).
  assert (Hs : NoDup (map person_id (sort sort_key survivors))).
  { eapply Permutation_NoDup.
    - apply Permutation_map. symmetry. apply sort_perm.
    - now apply survivors_ids_nodup. }
  rewrite <- (firstn_skipn 10 (sort sort_key survivors)), map_app in Hs.
  eapply NoDup_app_remove_r. exact Hs.
Qed.

Lemma ranking_ids_unique_witness : NoDup (map person_id sample_ranking).
Proof.
  apply (ranking_ids_unique plain_float sample_query sample_db
           sample_ranking).
  - simpl. repeat constructor; simpl; intuition discriminate.
  - vm_compute. reflexivity.
Defined.

(** ** What a score depends on *)

Lemma compare_locus_same_reading py_float q row row' st locus :
  same_reading row row' locus ->
  compare_locus py_float q row st locus =
  compare_locus py_float q row' st locus.
Proof.
  unfold same_reading, present, compare_locus.
  intros [E | [H1 H2]]; [now rewrite E | ].
  apply negb_false_iff in H1, H2. rewrite H1, H2.
  now rewrite !orb_true_r.
Qed.

Lemma scan_loci_ext py_float q row row' loci : forall st,
  (forall locus, In locus loci -> same_reading row row' locus) ->
  scan_loci py_float q row loci st = scan_loci py_float q row' loci st.
Proof.
  induction loci as [ | l loci IH]; intros st H; simpl; [reflexivity | ].
  rewrite (compare_locus_same_reading py_float q row row' st l
             (H l (or_introl eq_refl))).
  destruct (compare_locus py_float q row' st l); simpl; [ | reflexivity].
  apply IH. intros locus Hin. apply H. now right.
Qed.

(** X16. The score of a row depends only on its [PersonID] and on how its
    values at the query loci read: other columns, white space around a
    value, and whether a missing value is written "-", left empty or has no
    column at all make no difference. *)
Theorem other_columns_ignored
  (py_float : string -> option float) (q : dict) (qid : string)
  (loci : list string) (row row' : dict) :
  index row "PersonID" = index row' "PersonID" ->
  (forall locus, In locus loci -> same_reading row row' locus) ->
  score_row py_float q qid loci row = score_row py_float q qid loci row'.
Proof.
  intros Hid H. unfold score_row. rewrite Hid.
  now rewrite (scan_loci_ext py_float q row row' loci init H).
Qed.

Lemma other_columns_ignored_witness :
  score_row plain_float sample_query "Q1" (query_loci sample_query) row_p4 =
  score_row plain_float sample_query "Q1" (query_loci sample_query)
    row_p4_padded
  /\ score_row plain_float sample_query "Q1" (query_loci sample_query) row_p4 =
     score_row plain_float sample_query "Q1" (query_loci sample_query)
       row_p4_empty.
Proof.
  split.
  - apply (other_columns_ignored plain_float sample_query "Q1"
             (query_loci sample_query) row_p4 row_p4_padded).
    + reflexivity.
    + intros locus Hin. simpl in Hin.
      repeat (destruct Hin as [<- | Hin]; [left; reflexivity | ]).
      destruct Hin.
  - apply (other_columns_ignored plain_float sample_query "Q1"
             (query_loci sample_query) row_p4 row_p4_empty).
    + reflexivity.
    + intros locus Hin. simpl in Hin.
      repeat (destruct Hin as [<- | Hin];
              [first [left; reflexivity | right; split; reflexivity] | ]).
      destruct Hin.
Defined.

(** ** The order of the query loci *)

Lemma length_filter_perm {A : Type} (f : A -> bool) l l' :
  Permutation l l' ->
  List.length (filter f l) = List.length (filter f l').
Proof.
  induction 1 as [ | x l l' P IH | x y l | l l' l'' P1 IH1 P2 IH2]; simpl.
  - reflexivity.
  - destruct (f x); simpl; auto.
  - destruct (f x), (f y); reflexivity.
  - congruence.
Qed.

(** X17. Reading the query loci in another order changes none of the
    counters, and so not the decision to keep or reject the candidate; only
    the rounding of the product [clr] can differ. *)
Theorem locus_order_counts
  (py_float : string -> option float) (q row : dict)
  (loci loci' : list string) (st : counters) :
  Permutation loci loci' ->
  scan_loci py_float q row loci init = Ok st ->
  exists st',
    scan_loci py_float q row loci' init = Ok st'
    /\ consistent st' = consistent st
    /\ mutated st' = mutated st
    /\ inconclusive st' = inconclusive st
    /\ exclusions st' = exclusions st
    /\ identity_matches st' = identity_matches st
    /\ compared st' = compared st
    /\ bad_match st' = bad_match st
    /\ same_person st' = same_person st.
Proof.
  intros P H.
  assert (Hok : exists st', scan_loci py_float q row loci' init = Ok st').
  { apply scan_loci_ok_iff.
    pose proof (proj1 (scan_loci_ok_iff py_float q row loci init)
                  (ex_intro _ st H)) as Hall.
    intros locus Hin. apply Hall.
    eapply Permutation_in; [symmetry; exact P | exact Hin]. }
  destruct Hok as [st' H']. exists st'. split; [exact H' | ].
  pose proof (scan_loci_outcomes _ _ _ _ _ _ H) as [Hc [Hm [Hi Hx]]].
  pose proof (scan_loci_outcomes _ _ _ _ _ _ H') as [Hc' [Hm' [Hi' Hx']]].
  pose proof (scan_loci_counts _ _ _ _ _ _ H) as [_ [Hp [Hd _]]].
  pose proof (scan_loci_counts _ _ _ _ _ _ H') as [_ [Hp' [Hd' _]]].
  unfold count_outcome, count_missing in *. simpl in *.
  assert (E1 : consistent st' = consistent st)
    by (rewrite Hc, Hc'; symmetry; now apply length_filter_perm).
  assert (E2 : mutated st' = mutated st)
    by (rewrite Hm, Hm'; symmetry; now apply length_filter_perm).
  assert (E3 : inconclusive st' = inconclusive st).
  { rewrite Hi, Hi'. f_equal; symmetry; now apply length_filter_perm. }
  assert (E4 : exclusions st' = exclusions st)
    by (rewrite Hx, Hx'; symmetry; now apply length_filter_perm).
  assert (E5 : identity_matches st' = identity_matches st)
    by (rewrite Hd, Hd'; symmetry; now apply length_filter_perm).
  assert (E6 : compared st' = compared st)
    by (rewrite Hp, Hp'; symmetry; now apply length_filter_perm).
  repeat split; auto.
  - unfold bad_match. now rewrite E1, E4.
  - unfold same_person. now rewrite E5, E6.
Qed.

Lemma locus_order_counts_witness :
  exists st',
    scan_loci plain_float sample_query row_p3
      (rev (query_loci sample_query)) init = Ok st'
    /\ consistent st' = 5 /\ mutated st' = 1 /\ inconclusive st' = 0
    /\ exclusions st' = 0 /\ identity_matches st' = 0 /\ compared st' = 6
    /\ bad_match st' = false /\ same_person st' = false.
Proof.
  assert (H : exists st,
             scan_loci plain_float sample_query row_p3
               (query_loci sample_query) init = Ok st
             /\ consistent st = 5 /\ mutated st = 1 /\ inconclusive st = 0
             /\ exclusions st = 0 /\ identity_matches st = 0
             /\ compared st = 6
             /\ bad_match st = false /\ same_person st = false).
  { eexists. split; [vm_compute; reflexivity | ].
    vm_compute. repeat split. }
  destruct H as (st & Hs & C1 & C2 & C3 & C4 & C5 & C6 & C7 & C8).
  destruct (locus_order_counts plain_float sample_query row_p3
              (query_loci sample_query) (rev (query_loci sample_query)) st
              (Permutation_rev _) Hs)
    as (st' & Hs' & D1 & D2 & D3 & D4 & D5 & D6 & D7 & D8).
  exists st'. repeat split; congruence.
Defined.
